(** * Decision engine of the GTO poker trainer

    A shallow embedding of the TypeScript sources
      - [client/src/types/poker.ts] and [client/src/types/gto.ts],
      - [client/src/data/gtoSolutions.ts],
      - [client/src/hooks/usePokerGame.ts],
      - [calculateScore] of the hand review component,
    followed by the properties of the specification that concern them.

    JavaScript numbers are IEEE 754 doubles.  Where the code only
    compares numbers, or where the properties concern the shape of the
    state, numbers are modelled by the rationals [Q]: every finite double
    is a rational and comparing finite doubles is comparing the rationals
    they denote.  Where the outcome depends on how an arithmetic result
    is rounded ([isBlunder], [findAction], [calculateScore]) the functions
    are given over doubles in module [Double], built on the executable
    specification of binary64 arithmetic of the standard library
    ([SpecFloat]: signed zeros, infinities, NaN, round to nearest even).
    Module [Binary64] holds the scoring function over the machine's own
    doubles, to evaluate examples.  An optional parameter
    ([amount?: number]) is an [option], [None] being [undefined]. *)

From Stdlib Require Import QArith Qround Qabs Lqa Ascii String.
From Stdlib Require Import Floats.PrimFloat Floats.SpecFloat Floats.FloatOps Sorted.
From stdpp Require Import gmap list strings.

Local Open Scope Q_scope.

(** ** JavaScript number primitives *)

Module Js.

(** [x > y] on numbers. *)
Definition gtb (x y : Q) : bool := negb (Qle_bool x y).

(** Truthiness of an optional number: [undefined] and [0] are falsy. *)
Definition truthy (o : option Q) : bool :=
  match o with
  | None => false
  | Some x => negb (Qeq_bool x 0)
  end.

(** The number carried by an optional number once it is known truthy;
    where the source multiplies or adds it the value is only ever used
    under the [truthy] test. *)
Definition num (o : option Q) : Q :=
  match o with
  | None => 0
  | Some x => x
  end.

(** [Math.max(x, y)]. *)
Definition Math_max (x y : Q) : Q := if Qle_bool x y then y else x.

(** [Math.round(x)]: the nearest integer, halves towards +infinity. *)
Definition Math_round (x : Q) : Q := inject_Z (Qfloor (x + (1 # 2))).

(** [Array.prototype.indexOf]: the first index holding [x], or [-1]. *)
Fixpoint indexOf_from {A} `{EqDecision A} (x : A) (l : list A) (i : Z) : Z :=
  match l with
  | [] => (-1)%Z
  | y :: l' => if decide (y = x) then i else indexOf_from x l' (i + 1)%Z
  end.

Definition indexOf {A} `{EqDecision A} (x : A) (l : list A) : Z :=
  indexOf_from x l 0%Z.

(** [Array.prototype.find]. *)
Fixpoint find {A} (p : A -> bool) (l : list A) : option A :=
  match l with
  | [] => None
  | y :: l' => if p y then Some y else find p l'
  end.

(** [Array.prototype.reduce] without an initial value: the first
    element seeds the accumulator; on an empty array a [TypeError] is
    thrown, which is [None] here. *)
Definition reduce {A} (f : A -> A -> A) (l : list A) : option A :=
  match l with
  | [] => None
  | y :: l' => Some (fold_left f l' y)
  end.

End Js.

(** ** [types/poker.ts] *)

Inductive Suit := suit_h | suit_d | suit_c | suit_s.

Inductive Rank :=
  | R2 | R3 | R4 | R5 | R6 | R7 | R8 | R9 | RT | RJ | RQ | RK | RA.

Record Card := mkCard { rank : Rank; suit : Suit }.

Inductive Street := preflop | flop | turn | river.

Inductive Position := UTG | HJ | CO | BTN | SB | BB.

Inductive ActionType := fold | check | call | bet | raise.

#[global] Instance Street_eq_dec : EqDecision Street.
Proof. solve_decision. Defined.

#[global] Instance ActionType_eq_dec : EqDecision ActionType.
Proof. solve_decision. Defined.

Record PlayerAction := mkPlayerAction {
  pa_type : ActionType;
  pa_amount : option Q;
  pa_street : Street
}.

Record Player := mkPlayer {
  pl_position : Position;
  pl_stack : Q;
  pl_cards : option (list Card);
  pl_isHero : bool
}.

Record GameState := mkGameState {
  gs_street : Street;
  gs_pot : Q;
  gs_board : list Card;
  gs_players : list Player;
  gs_actionHistory : list PlayerAction;
  gs_currentPlayer : Position
}.

(** A [CardString] is the two-character string [rank ++ suit]. *)
Definition CardString := string.

Definition rankOfChar (a : ascii) : Rank :=
  if Ascii.eqb a "2"%char then R2 else if Ascii.eqb a "3"%char then R3
  else if Ascii.eqb a "4"%char then R4 else if Ascii.eqb a "5"%char then R5
  else if Ascii.eqb a "6"%char then R6 else if Ascii.eqb a "7"%char then R7
  else if Ascii.eqb a "8"%char then R8 else if Ascii.eqb a "9"%char then R9
  else if Ascii.eqb a "T"%char then RT else if Ascii.eqb a "J"%char then RJ
  else if Ascii.eqb a "Q"%char then RQ else if Ascii.eqb a "K"%char then RK
  else RA.

Definition suitOfChar (a : ascii) : Suit :=
  if Ascii.eqb a "h"%char then suit_h else if Ascii.eqb a "d"%char then suit_d
  else if Ascii.eqb a "c"%char then suit_c else suit_s.

(** [parseCard]: the first character is the rank, the second the suit.
    The source casts without checking; it is only ever applied to
    [CardString] literals, on which the character readers above are
    exact. *)
Definition parseCard (cardStr : CardString) : Card :=
  match cardStr with
  | String r (String s _) => mkCard (rankOfChar r) (suitOfChar s)
  | _ => mkCard RA suit_s
  end.

(** ** [types/gto.ts] *)

Record GTOAction := mkGTOAction {
  ga_action : ActionType;
  ga_size : option Q;
  ga_frequency : Q;
  ga_ev : Q
}.

Record GTOSolution := mkGTOSolution {
  sol_id : string;
  sol_street : Street;
  sol_position : Position;
  sol_villainPosition : Position;
  sol_board : list CardString;
  sol_pot : Q;
  sol_stackDepth : Q;
  sol_handClass : option string;
  sol_actionHistory : list string;
  sol_actions : list GTOAction;
  sol_description : option string
}.

(** [getBestAction]: a left-to-right [reduce] that replaces the running
    best only by a strictly larger [ev]. *)
Definition betterOf (best current : GTOAction) : GTOAction :=
  if Js.gtb (ga_ev current) (ga_ev best) then current else best.

Definition getBestAction (solution : GTOSolution) : option GTOAction :=
  Js.reduce betterOf (sol_actions solution).

(** [isBlunder]: more than 2bb behind the best action.  It throws exactly
    when [getBestAction] does.  The subtraction is exact here; it is the
    rounded one in [Double.isBlunder], and the two agree on the stored
    solutions (last section). *)
Definition isBlunder (solution : GTOSolution) (action : GTOAction) : option bool :=
  match getBestAction solution with
  | None => None
  | Some bestAction => Some (Js.gtb (ga_ev bestAction - ga_ev action) 2)
  end.

(** ** [data/gtoSolutions.ts] *)

Definition streetName (s : Street) : string :=
  match s with
  | preflop => "preflop"
  | flop => "flop"
  | turn => "turn"
  | river => "river"
  end.

Definition offered (a : ActionType) (size : option Q) (frequency ev : Q) : GTOAction :=
  mkGTOAction a size frequency ev.

Definition gtoSolutions : list GTOSolution := [
  (* Scenario 1: BTN vs CO, A-high flop with top pair *)
  mkGTOSolution "flop-btn-vs-co-ahigh-toppair" flop BTN CO
    ["Ah"; "Kd"; "7s"] 7.5 100 (Some "top-pair")
    ["CO raises 2.5bb preflop"; "BTN calls"; "Flop: A♥K♦7♠"; "CO checks"]
    [ offered check None 0.55 11.3;
      offered bet (Some 0.33) 0.35 12.1;
      offered bet (Some 0.66) 0.10 11.5 ]
    (Some "BTN with top pair on A-high board after CO checks");
  (* Scenario 2: Turn after betting flop *)
  mkGTOSolution "turn-btn-vs-co-ahigh-toppair-afterbet" turn BTN CO
    ["Ah"; "Kd"; "7s"; "3c"] 10.0 95 (Some "top-pair")
    ["CO raises 2.5bb preflop"; "BTN calls"; "Flop: A♥K♦7♠"; "CO checks";
     "BTN bets 2.5bb (33% pot)"; "CO calls"; "Turn: 3♣"; "CO checks"]
    [ offered check None 0.70 15.2;
      offered bet (Some 0.50) 0.20 14.5;
      offered bet (Some 0.75) 0.10 13.1 ]
    (Some "BTN with top pair on turn after flop c-bet, facing check");
  (* Scenario 3: River decision *)
  mkGTOSolution "river-btn-vs-co-ahigh-toppair" river BTN CO
    ["Ah"; "Kd"; "7s"; "3c"; "9h"] 10.0 95 (Some "top-pair")
    ["Flop: BTN bet 33% pot, CO called"; "Turn: Both checked"; "River: 9♥";
     "CO checks"]
    [ offered check None 0.80 15.5;
      offered bet (Some 0.33) 0.15 14.8;
      offered bet (Some 0.50) 0.05 13.5 ]
    (Some "River decision with top pair after turn check-back");
  (* Scenario 4: Facing a bet on flop with top pair *)
  mkGTOSolution "flop-btn-vs-co-ahigh-toppair-facingbet" flop BTN CO
    ["Ah"; "Kd"; "7s"] 10.0 97.5 (Some "top-pair")
    ["CO raises 2.5bb preflop"; "BTN calls"; "Flop: A♥K♦7♠";
     "CO bets 2.5bb (33% pot)"]
    [ offered fold None 0.0 (-2.5);
      offered call None 0.75 10.5;
      offered raise (Some 0.66) 0.25 9.8 ]
    (Some "BTN facing flop bet with top pair");
  (* Scenario 5: Dry flop with weak hand *)
  mkGTOSolution "flop-btn-vs-co-drytexture-weak" flop BTN CO
    ["Ks"; "7h"; "2c"] 7.5 100 (Some "air")
    ["CO raises preflop"; "BTN calls"; "Flop: K♠7♥2♣"; "CO checks"]
    [ offered check None 0.60 0.0;
      offered bet (Some 0.33) 0.30 (-0.5);
      offered bet (Some 0.75) 0.10 (-1.2) ]
    (Some "Dry K-high flop, missed completely, facing check");
  (* Scenario 6: Wet flop with flush draw *)
  mkGTOSolution "flop-btn-vs-co-wetdraw" flop BTN CO
    ["Qh"; "Jh"; "7h"] 7.5 100 (Some "draw")
    ["CO raises preflop"; "BTN calls"; "Flop: Q♥J♥7♥"; "CO bets 5bb (66% pot)"]
    [ offered fold None 0.0 (-2.5);
      offered call None 0.85 8.5;
      offered raise (Some 1.0) 0.15 7.8 ]
    (Some "Facing bet on wet board with flush draw")
].

(** Truthiness of an optional string: [undefined] and the empty string
    are falsy. *)
Definition truthyString (o : option string) : bool :=
  match o with
  | None => false
  | Some s => negb (String.eqb s "")
  end.

(** [===] between an optional stored string and a requested one. *)
Definition strictEqOpt (stored requested : option string) : bool :=
  match stored, requested with
  | Some a, Some b => String.eqb a b
  | None, None => true
  | _, _ => false
  end.

(** [findGTOSolution]: the first stored solution on the same street whose
    board has as many cards as the requested one and, when a hand class is
    requested, the same hand class. *)
Definition matches (street : string) (board : list string)
    (handClass : option string) (s : GTOSolution) : bool :=
  String.eqb (streetName (sol_street s)) street
  && Nat.eqb (length (sol_board s)) (length board)
  && (negb (truthyString handClass) || strictEqOpt (sol_handClass s) handClass).

Definition findGTOSolution (street : string) (board : list string)
    (handClass : option string) : option GTOSolution :=
  Js.find (matches street board handClass) gtoSolutions.

(** ** [hooks/usePokerGame.ts] *)

Record Decision := mkDecision {
  d_street : Street;
  d_action : ActionType;
  d_amount : option Q;
  d_gtoFrequency : Q;
  d_gtoEV : Q;
  d_bestAction : ActionType;
  d_bestActionFreq : Q;
  d_isBlunder : bool
}.

(** [createInitialGameState]: the predefined flop scenario. *)
Definition createInitialGameState : GameState :=
  {| gs_street := flop;
     gs_pot := 7.5;
     gs_board := [parseCard "Ah"; parseCard "Kd"; parseCard "7s"];
     gs_players :=
       [ mkPlayer CO 100 None false;
         mkPlayer BTN 97.5 (Some [parseCard "As"; parseCard "Qs"]) true ];
     gs_actionHistory := [];
     gs_currentPlayer := BTN |}.

(** [getNextStreet]. *)
Definition streetOrder : list Street := [preflop; flop; turn; river].

Definition getNextStreet (current : Street) : Street :=
  let currentIndex := Js.indexOf current streetOrder in
  if (currentIndex <? Z.of_nat (length streetOrder) - 1)%Z
  then match streetOrder !! Z.to_nat (currentIndex + 1) with
       | Some next => next
       | None => current
       end
  else current.

(** Field assignments on a copy of the state. *)
Definition with_street (g : GameState) (v : Street) : GameState :=
  mkGameState v (gs_pot g) (gs_board g) (gs_players g) (gs_actionHistory g)
    (gs_currentPlayer g).

Definition with_pot (g : GameState) (v : Q) : GameState :=
  mkGameState (gs_street g) v (gs_board g) (gs_players g) (gs_actionHistory g)
    (gs_currentPlayer g).

Definition with_board (g : GameState) (v : list Card) : GameState :=
  mkGameState (gs_street g) (gs_pot g) v (gs_players g) (gs_actionHistory g)
    (gs_currentPlayer g).

Definition with_actionHistory (g : GameState) (v : list PlayerAction) : GameState :=
  mkGameState (gs_street g) (gs_pot g) (gs_board g) (gs_players g) v
    (gs_currentPlayer g).

(** [processAction], on values: the successor state it returns. *)
Definition processAction (state : GameState) (action : ActionType)
    (amount : option Q) : GameState :=
  let newState := state in
  (* Add action to history *)
  let newState :=
    with_actionHistory newState
      (gs_actionHistory state ++ [mkPlayerAction action amount (gs_street state)]) in
  (* Update pot if betting/calling *)
  let newState :=
    if bool_decide (action = bet) || bool_decide (action = raise) then
      let betAmount :=
        if Js.truthy amount then Js.num amount * gs_pot state else 0 in
      with_pot newState (gs_pot newState + betAmount)
    else if bool_decide (action = call) && Js.truthy amount then
      with_pot newState (gs_pot newState + Js.num amount)
    else newState in
  (* Progress to next street if action closes the street *)
  if negb (bool_decide (action = fold)) then
    let newState := with_street newState (getNextStreet (gs_street state)) in
    if bool_decide (gs_street newState = turn) then
      with_board newState (gs_board state ++ [parseCard "3c"])
    else if bool_decide (gs_street newState = river) then
      with_board newState (gs_board state ++ [parseCard "9h"])
    else newState
  else newState.

(** [analyzeDecision]: the placeholder table and the comparison against
    its hard-wired best action. *)
Record ActionData := mkActionData { freq : Q; ev : Q }.

Definition gtoSolution (key : ActionType) : option ActionData :=
  match key with
  | check => Some (mkActionData 0.60 11.3)
  | bet => Some (mkActionData 0.40 12.1)
  | fold => Some (mkActionData 0.0 (-2.5))
  | call => Some (mkActionData 0.35 10.5)
  | raise => Some (mkActionData 0.20 11.0)
  end.

Record Analysis := mkAnalysis {
  an_gtoFrequency : Q;
  an_gtoEV : Q;
  an_bestAction : ActionType;
  an_bestActionFreq : Q;
  an_isBlunder : bool
}.

Definition analyzeDecision (state : GameState) (action : ActionType)
    (amount : option Q) : Analysis :=
  let actionData := default (mkActionData 0.0 0) (gtoSolution action) in
  let bestAction := bet in
  let bestActionData := default (mkActionData 0.0 0) (gtoSolution bestAction) in
  let isBlunder := Js.gtb (ev bestActionData - ev actionData) 2.0 in
  {| an_gtoFrequency := freq actionData;
     an_gtoEV := ev actionData;
     an_bestAction := bestAction;
     an_bestActionFreq := freq bestActionData;
     an_isBlunder := isBlunder |}.

(** The state held by the [usePokerGame] hook. *)
Record Hook := mkHook {
  decisions : list Decision;
  isHandComplete : bool;
  gameState : GameState
}.

Definition usePokerGame : Hook :=
  {| decisions := []; isHandComplete := false;
     gameState := createInitialGameState |}.

(** [makeAction]: ignored once the hand is complete; otherwise the
    decision is recorded, the state replaced by its successor, and the
    hand completed by a fold or on reaching the river. *)
Definition makeAction (hk : Hook) (action : ActionType) (amount : option Q) : Hook :=
  if isHandComplete hk then hk
  else
    let gtoAnalysis := analyzeDecision (gameState hk) action amount in
    let newDecision :=
      {| d_street := gs_street (gameState hk);
         d_action := action;
         d_amount := amount;
         d_gtoFrequency := an_gtoFrequency gtoAnalysis;
         d_gtoEV := an_gtoEV gtoAnalysis;
         d_bestAction := an_bestAction gtoAnalysis;
         d_bestActionFreq := an_bestActionFreq gtoAnalysis;
         d_isBlunder := an_isBlunder gtoAnalysis |} in
    let newGameState := processAction (gameState hk) action amount in
    {| decisions := decisions hk ++ [newDecision];
       isHandComplete :=
         if bool_decide (action = fold)
            || bool_decide (gs_street newGameState = river)
         then true else isHandComplete hk;
       gameState := newGameState |}.

Definition startNewHand (hk : Hook) : Hook :=
  {| decisions := []; isHandComplete := false;
     gameState := createInitialGameState |}.

(** The hook states passed through while a sequence of submitted actions
    is played, the starting state first. *)
Fixpoint play (hk : Hook) (submitted : list (ActionType * option Q)) : list Hook :=
  match submitted with
  | [] => [hk]
  | (action, amount) :: rest => hk :: play (makeAction hk action amount) rest
  end.

(** ** [calculateScore] of the hand review

    In exact arithmetic.  [Double.calculateScore] is the function with
    the roundings of the engine; the two agree on every hand the hook
    records (last section). *)

Definition evLoss (d : Decision) : Q :=
  if d_isBlunder d then 3 else (1 - d_gtoFrequency d) * 1.5.

Definition calculateScore (ds : list Decision) : Q :=
  if Nat.eqb (length ds) 0 then 100
  else
    let totalEVLoss := fold_left (fun total d => total + evLoss d) ds 0 in
    let score :=
      Js.Math_max 0 (100 - (totalEVLoss / inject_Z (Z.of_nat (length ds))) * 20) in
    Js.Math_round score.

(** ** [calculateScore] on the machine's doubles

    The same function over the primitive binary64 numbers, for
    non-negative finite values, to evaluate concrete hands with the
    rounding of the machine.  It reads of a decision only [isBlunder] and
    [gtoFrequency]. *)

Module Binary64.

Local Open Scope float_scope.

Definition two52 : float := 4503599627370496.

(** [Math.max(0, x)]. *)
Definition Math_max0 (x : float) : float := if x <=? 0 then 0 else x.

(** [Math.round(x)] for [x >= 0]: below 2^52 adding and subtracting 2^52
    rounds to an integer, halves to the even neighbour, and a half that
    went down is moved up; from 2^52 on every double is an integer. *)
Definition Math_round (x : float) : float :=
  if two52 <=? x then x
  else
    let r := (x + two52) - two52 in
    if (x - r) =? 0.5 then r + 1 else r.

(** The number [n] of an array length, exact below 2^53. *)
Fixpoint of_length (n : nat) : float :=
  match n with
  | O => 0
  | S k => of_length k + 1
  end.

Definition evLoss (d : bool * float) : float :=
  let (isBlunder, gtoFrequency) := d in
  if isBlunder then 3 else (1 - gtoFrequency) * 1.5.

Definition calculateScore (ds : list (bool * float)) : float :=
  if Nat.eqb (length ds) 0 then 100
  else
    let totalEVLoss := fold_left (fun total d => total + evLoss d) ds 0 in
    let score := Math_max0 (100 - (totalEVLoss / of_length (length ds)) * 20) in
    Math_round score.

End Binary64.

(** ** The functions whose outcome depends on rounding, on doubles

    [isBlunder] and [findAction] of [types/gto.ts], the blunder test of
    [analyzeDecision] and [calculateScore], with every number a binary64
    value and every operation the correctly rounded one. *)

Module Double.

Definition double := spec_float.

Definition prec : Z := 53.
Definition emax : Z := 1024.

Definition add : double -> double -> double := SFadd prec emax.
Definition sub : double -> double -> double := SFsub prec emax.
Definition mul : double -> double -> double := SFmul prec emax.
Definition div : double -> double -> double := SFdiv prec emax.

(** [x < y] and [x > y]; both are false when either side is NaN. *)
Definition ltb : double -> double -> bool := SFltb.
Definition gtb (x y : double) : bool := ltb y x.

(** The double of an integer, exact up to 2^53. *)
Definition ofZ (z : Z) : double := binary_normalize prec emax z 0 false.

(** The double a decimal literal denotes: the quotient of numerator and
    denominator, rounded once.  Numerator and denominator of every
    literal used below are under 2^53, so both are exact and the result
    is the double nearest to the literal. *)
Definition lit (q : Q) : double := div (ofZ (Qnum q)) (ofZ (Zpos (Qden q))).

Definition isNaN (x : double) : bool :=
  match x with
  | S754_nan => true
  | _ => false
  end.

Definition isZero (x : double) : bool :=
  match x with
  | S754_zero _ => true
  | _ => false
  end.

(** Truthiness of an optional number: [undefined], [0], [-0] and [NaN]
    are falsy. *)
Definition truthy (o : option double) : bool :=
  match o with
  | None => false
  | Some x => negb (isZero x || isNaN x)
  end.

(** An optional number used as a number: [undefined] becomes [NaN]. *)
Definition num (o : option double) : double :=
  match o with
  | None => S754_nan
  | Some x => x
  end.

Definition Math_abs : double -> double := SFabs.

(** [Math.max(x, y)]: NaN if either is NaN, and [+0] is larger than
    [-0]. *)
Definition Math_max (x y : double) : double :=
  match x, y with
  | S754_nan, _ | _, S754_nan => S754_nan
  | S754_zero sx, S754_zero sy => S754_zero (sx && sy)
  | _, _ => if ltb x y then y else x
  end.

(** [Math.round(x)]: the integer [floor(x + 1/2)], computed exactly; a
    result of zero keeps the sign of [x]; infinities, NaN and zeros are
    returned as they are.  A finite double with a non-negative exponent
    field is an integer already; one with exponent field [-k] is
    [n / 2^k], and [floor(n / 2^k + 1/2) = floor((2 n + 2^k) / 2^(k+1))]. *)
Definition Math_round (x : double) : double :=
  match x with
  | S754_finite s m (Zneg k) =>
      let n := if s then Zneg m else Zpos m in
      let q := ((2 * n + 2 ^ Zpos k) / 2 ^ (Zpos k + 1))%Z in
      if (q =? 0)%Z then S754_zero s else ofZ q
  | _ => x
  end.

(** *** [types/gto.ts] *)

(** The records of the stored table, whose numbers are decimal
    literals. *)
Local Abbreviation LiteralAction := GTOAction.
Local Abbreviation LiteralSolution := GTOSolution.
Local Abbreviation literalSolutions := gtoSolutions.
Local Abbreviation LiteralDecision := Decision.

Record GTOAction := mkGTOAction {
  da_action : ActionType;
  da_size : option double;
  da_frequency : double;
  da_ev : double
}.

Record GTOSolution := mkGTOSolution {
  dsol_id : string;
  dsol_street : Street;
  dsol_position : Position;
  dsol_villainPosition : Position;
  dsol_board : list CardString;
  dsol_pot : double;
  dsol_stackDepth : double;
  dsol_handClass : option string;
  dsol_actionHistory : list string;
  dsol_actions : list GTOAction;
  dsol_description : option string
}.

Definition betterOf (best current : GTOAction) : GTOAction :=
  if gtb (da_ev current) (da_ev best) then current else best.

Definition getBestAction (solution : GTOSolution) : option GTOAction :=
  Js.reduce betterOf (dsol_actions solution).

Definition isBlunder (solution : GTOSolution) (action : GTOAction) : option bool :=
  match getBestAction solution with
  | None => None
  | Some bestAction =>
      Some (gtb (sub (da_ev bestAction) (da_ev action)) (lit 2.0))
  end.

(** The test [findAction] applies to each offered action. *)
Definition sizeMatches (actionType : ActionType) (size : option double)
    (a : GTOAction) : bool :=
  if negb (bool_decide (da_action a = actionType)) then false
  else if truthy size && truthy (da_size a)
    then ltb (Math_abs (sub (num (da_size a)) (num size))) (lit 0.1)
    else true.

Definition findAction (solution : GTOSolution) (actionType : ActionType)
    (size : option double) : option GTOAction :=
  Js.find (sizeMatches actionType size) (dsol_actions solution).

(** An offered action whose size is too far from the requested one: both
    sizes are given, neither is zero or NaN, and their distance as
    computed on doubles is not below the double 0.1. *)
Definition sizeMismatch (size : option double) (a : GTOAction) : Prop :=
  truthy size = true /\ truthy (da_size a) = true
  /\ ltb (Math_abs (sub (num (da_size a)) (num size))) (lit 0.1) = false.

(** *** The blunder test of [analyzeDecision] *)

Record ActionData := mkActionData { dfreq : double; dev : double }.

Definition gtoSolution (key : ActionType) : option ActionData :=
  match key with
  | check => Some (mkActionData (lit 0.60) (lit 11.3))
  | bet => Some (mkActionData (lit 0.40) (lit 12.1))
  | fold => Some (mkActionData (lit 0.0) (lit (-2.5)))
  | call => Some (mkActionData (lit 0.35) (lit 10.5))
  | raise => Some (mkActionData (lit 0.20) (lit 11.0))
  end.

Record Analysis := mkAnalysis {
  dan_gtoFrequency : double;
  dan_gtoEV : double;
  dan_bestAction : ActionType;
  dan_bestActionFreq : double;
  dan_isBlunder : bool
}.

Definition analyzeDecision (state : GameState) (action : ActionType)
    (amount : option double) : Analysis :=
  let actionData := default (mkActionData (lit 0.0) (lit 0)) (gtoSolution action) in
  let bestAction := bet in
  let bestActionData :=
    default (mkActionData (lit 0.0) (lit 0)) (gtoSolution bestAction) in
  let isBlunder := gtb (sub (dev bestActionData) (dev actionData)) (lit 2.0) in
  {| dan_gtoFrequency := dfreq actionData;
     dan_gtoEV := dev actionData;
     dan_bestAction := bestAction;
     dan_bestActionFreq := dfreq bestActionData;
     dan_isBlunder := isBlunder |}.

(** *** [calculateScore] *)

Record Decision := mkDecision {
  dd_street : Street;
  dd_action : ActionType;
  dd_amount : option double;
  dd_gtoFrequency : double;
  dd_gtoEV : double;
  dd_bestAction : ActionType;
  dd_bestActionFreq : double;
  dd_isBlunder : bool
}.

Definition evLoss (d : Decision) : double :=
  if dd_isBlunder d then lit 3
  else mul (sub (lit 1) (dd_gtoFrequency d)) (lit 1.5).

Definition calculateScore (ds : list Decision) : double :=
  if Nat.eqb (length ds) 0 then lit 100
  else
    let totalEVLoss := fold_left (fun total d => add total (evLoss d)) ds (lit 0) in
    let score :=
      Math_max (lit 0)
        (sub (lit 100)
           (mul (div totalEVLoss (ofZ (Z.of_nat (length ds)))) (lit 20))) in
    Math_round score.

(** *** The scoring rule in the words of the specification, on doubles

    The loss of each decision, the losses added up from 0 in the order
    of the list, their average over the hand, and the value to be
    returned before any rounding: 100 less 20 times the average, not
    below 0. *)
Definition loss (d : Decision) : double :=
  if dd_isBlunder d then lit 3.0
  else mul (sub (lit 1) (dd_gtoFrequency d)) (lit 1.5).

Definition total (ds : list Decision) : double :=
  fold_left add (map loss ds) (lit 0).

Definition average (ds : list Decision) : double :=
  div (total ds) (ofZ (Z.of_nat (length ds))).

Definition unrounded (ds : list Decision) : double :=
  Math_max (lit 0) (sub (lit 100) (mul (average ds) (lit 20))).

(** [signed s x]: [x] is a zero, a finite number or an infinity of sign
    [s] ([false] for plus); NaN has no sign. *)
Definition signed (s : bool) (x : double) : Prop :=
  match x with
  | S754_zero s' | S754_infinity s' | S754_finite s' _ _ => s' = s
  | S754_nan => False
  end.

(** The stored solutions, their literals read as doubles. *)
Definition ofAction (a : LiteralAction) : GTOAction :=
  mkGTOAction (ga_action a) (option_map lit (ga_size a))
    (lit (ga_frequency a)) (lit (ga_ev a)).

Definition ofSolution (s : LiteralSolution) : GTOSolution :=
  mkGTOSolution (sol_id s) (sol_street s) (sol_position s)
    (sol_villainPosition s) (sol_board s) (lit (sol_pot s))
    (lit (sol_stackDepth s)) (sol_handClass s) (sol_actionHistory s)
    (map ofAction (sol_actions s)) (sol_description s).

Definition gtoSolutions : list GTOSolution := map ofSolution literalSolutions.

(** A decision recorded by the hook, its numbers read as doubles. *)
Definition ofDecision (d : LiteralDecision) : Decision :=
  mkDecision (d_street d) (d_action d) (option_map lit (d_amount d))
    (lit (d_gtoFrequency d)) (lit (d_gtoEV d)) (d_bestAction d)
    (lit (d_bestActionFreq d)) (d_isBlunder d).

(** A decision of which only the blunder flag and the GTO frequency
    matter. *)
Definition decisionOf (gtoFrequency : double) (blunder : bool) : Decision :=
  mkDecision flop check None gtoFrequency (lit 0) bet (lit 0.40) blunder.

(** The second stored scenario (the turn), and a solution offering two
    lines whose EVs are 9.8 and 7.8. *)
Definition turnScenario : GTOSolution :=
  default (mkGTOSolution "" turn BTN CO [] (lit 0) (lit 0) None [] [] None)
          (gtoSolutions !! 1%nat).

Definition twoLines : GTOSolution :=
  mkGTOSolution "two-lines" flop BTN CO ["Qh"; "Jh"; "7h"] (lit 7.5) (lit 100)
    None []
    [ mkGTOAction call None (lit 0.85) (lit 9.8);
      mkGTOAction raise (Some (lit 1.0)) (lit 0.15) (lit 7.8) ]
    None.

End Double.

(** ** [processAction] on the JavaScript heap

    A [GameState] is an object whose [board], [players] and
    [actionHistory] fields hold references to arrays.  The spread
    [{ ...state }] copies the fields, so the copy starts out sharing the
    three arrays with its source; whether the source is left intact
    depends on which cells are written afterwards.  The heap below makes
    that visible.  Array elements are kept as values: no statement of
    [processAction] assigns to an element or to a field of one. *)

Module Heap.

Definition loc := positive.

Inductive object :=
  | OGameState (street : Street) (pot : Q) (board players actionHistory : loc)
      (currentPlayer : Position)
  | OCards (cs : list Card)
  | OPlayers (ps : list Player)
  | OActions (acts : list PlayerAction).

Abbreviation heap := (gmap loc object).

(** Computations that read and write the heap and may get stuck. *)
Definition M (A : Type) : Type := heap -> option (A * heap).

Definition ret {A} (a : A) : M A := fun h => Some (a, h).

Definition bind {A B} (m : M A) (k : A -> M B) : M B :=
  fun h => match m h with
           | Some (a, h') => k a h'
           | None => None
           end.

Definition stuck {A} : M A := fun _ => None.

Notation "'let*' x := m 'in' k" := (bind m (fun x => k))
  (at level 10, x name, m at level 100, k at level 200).

(** A new object or array lands on a location not in use. *)
Definition alloc (o : object) : M loc :=
  fun h => let l := fresh (dom h) in Some (l, <[l := o]> h).

Definition load (l : loc) : M object :=
  fun h => match h !! l with
           | Some o => Some (o, h)
           | None => None
           end.

Definition store (l : loc) (o : object) : M unit :=
  fun h => match h !! l with
           | Some _ => Some (tt, <[l := o]> h)
           | None => None
           end.

(** Reading the fields of a [GameState] object and the contents of
    arrays. *)
Record fields := mkFields {
  f_street : Street;
  f_pot : Q;
  f_board : loc;
  f_players : loc;
  f_actionHistory : loc;
  f_currentPlayer : Position
}.

Definition obj_of (f : fields) : object :=
  OGameState (f_street f) (f_pot f) (f_board f) (f_players f)
    (f_actionHistory f) (f_currentPlayer f).

Definition loadState (l : loc) : M fields :=
  let* o := load l in
  match o with
  | OGameState st p b pl ah cp => ret (mkFields st p b pl ah cp)
  | _ => stuck
  end.

Definition loadCards (l : loc) : M (list Card) :=
  let* o := load l in
  match o with
  | OCards cs => ret cs
  | _ => stuck
  end.

Definition loadActions (l : loc) : M (list PlayerAction) :=
  let* o := load l in
  match o with
  | OActions acts => ret acts
  | _ => stuck
  end.

(** Assignments [obj.field = v]. *)
Definition set_street (l : loc) (v : Street) : M unit :=
  let* f := loadState l in
  store l (obj_of (mkFields v (f_pot f) (f_board f) (f_players f)
                     (f_actionHistory f) (f_currentPlayer f))).

Definition set_pot (l : loc) (v : Q) : M unit :=
  let* f := loadState l in
  store l (obj_of (mkFields (f_street f) v (f_board f) (f_players f)
                     (f_actionHistory f) (f_currentPlayer f))).

Definition set_board (l : loc) (v : loc) : M unit :=
  let* f := loadState l in
  store l (obj_of (mkFields (f_street f) (f_pot f) v (f_players f)
                     (f_actionHistory f) (f_currentPlayer f))).

Definition set_actionHistory (l : loc) (v : loc) : M unit :=
  let* f := loadState l in
  store l (obj_of (mkFields (f_street f) (f_pot f) (f_board f) (f_players f)
                     v (f_currentPlayer f))).

(** The three statements of [processAction] after the copy.  [state]
    is the reference held by the caller, [newState] the reference to
    the copy. *)

(* newState.actionHistory = [...state.actionHistory, {...}]; *)
Definition appendHistory (state newState : loc) (action : ActionType)
    (amount : option Q) : M unit :=
  let* s := loadState state in
  let* old := loadActions (f_actionHistory s) in
  let* hist :=
    alloc (OActions (old ++ [mkPlayerAction action amount (f_street s)])) in
  set_actionHistory newState hist.

(* if (action === 'bet' || action === 'raise') ... else if ... *)
Definition updatePot (state newState : loc) (action : ActionType)
    (amount : option Q) : M unit :=
  if bool_decide (action = bet) || bool_decide (action = raise) then
    let* s := loadState state in
    let betAmount :=
      if Js.truthy amount then Js.num amount * f_pot s else 0 in
    let* n := loadState newState in
    set_pot newState (f_pot n + betAmount)
  else if bool_decide (action = call) && Js.truthy amount then
    let* n := loadState newState in
    set_pot newState (f_pot n + Js.num amount)
  else ret tt.

(* if (action !== 'fold') { ... } *)
Definition progressStreet (state newState : loc) (action : ActionType) : M unit :=
  if negb (bool_decide (action = fold)) then
    let* s := loadState state in
    let* _ := set_street newState (getNextStreet (f_street s)) in
    let* n := loadState newState in
    if bool_decide (f_street n = turn) then
      let* s := loadState state in
      let* cs := loadCards (f_board s) in
      let* b := alloc (OCards (cs ++ [parseCard "3c"])) in
      set_board newState b
    else
      let* n := loadState newState in
      if bool_decide (f_street n = river) then
        let* s := loadState state in
        let* cs := loadCards (f_board s) in
        let* b := alloc (OCards (cs ++ [parseCard "9h"])) in
        set_board newState b
      else ret tt
  else ret tt.

(** [processAction(state, action, amount)]: the result is the
    reference to [newState]. *)
Definition processAction (state : loc) (action : ActionType)
    (amount : option Q) : M loc :=
  (* const newState = { ...state }; *)
  let* s := loadState state in
  let* newState := alloc (obj_of s) in
  let* _ := appendHistory state newState action amount in
  let* _ := updatePot state newState action amount in
  let* _ := progressStreet state newState action in
  ret newState.

(** The [GameState] value a reference denotes in a heap: the object's
    scalar fields and the contents of the arrays it points to. *)
Definition readState (h : heap) (l : loc) : option GameState :=
  match h !! l with
  | Some (OGameState st p b pl ah cp) =>
      match h !! b, h !! pl, h !! ah with
      | Some (OCards cs), Some (OPlayers ps), Some (OActions acts) =>
          Some (mkGameState st p cs ps acts cp)
      | _, _, _ => None
      end
  | _ => None
  end.

(** Total correctness of a computation from a heap: it does not get
    stuck and its result and final heap satisfy [post]. *)
Definition wp {A} (m : M A) (post : A -> heap -> Prop) (h : heap) : Prop :=
  match m h with
  | Some (a, h') => post a h'
  | None => False
  end.

(** The situation while [processAction] runs from heap [h0]: every cell
    of [h0] is as it was, the copy sits on a cell that [h0] did not
    have, and it currently denotes [g]. *)
Record running (h0 : heap) (newState : loc) (g : GameState) (h : heap) : Prop :=
  mkRunning {
    run_frame : h0 ⊆ h;
    run_fresh : h0 !! newState = None;
    run_copy : readState h newState = Some g
  }.

End Heap.

(** ** The scoring rule in the words of the specification

    Per-decision loss, its average over the hand, the scaling by 20
    and the clamp to [[0, 100]]; an empty hand scores 100. *)

Module Spec.

Definition loss (d : Decision) : Q :=
  if d_isBlunder d then 3.0 else (1 - d_gtoFrequency d) * 1.5.

Definition total (ds : list Decision) : Q :=
  fold_right Qplus 0 (map loss ds).

Definition average (ds : list Decision) : Q :=
  total ds / inject_Z (Z.of_nat (length ds)).

Definition clamp (lo hi x : Q) : Q :=
  if Qle_bool x lo then lo else if Qle_bool hi x then hi else x.

Definition score (ds : list Decision) : Q :=
  match ds with
  | [] => 100
  | _ :: _ => clamp 0 100 (100 - average ds * 20)
  end.

(** The tie-break the specification asks of the best action: among the
    offered actions with the same [ev], none is played more often. *)
Definition prefersFrequent (solution : GTOSolution) (best : GTOAction) : Prop :=
  forall a, a ∈ sol_actions solution -> ga_ev a == ga_ev best ->
            ga_frequency a <= ga_frequency best.

End Spec.

(** ** Inputs and vocabulary of the statements below *)

(** Two lines of equal EV, the second played more often. *)
Definition tiedCheck : GTOAction := mkGTOAction check None 0.3 1.
Definition tiedBet : GTOAction := mkGTOAction bet (Some 0.5) 0.7 1.

Definition tiedSolution : GTOSolution :=
  mkGTOSolution "tied" flop BTN CO ["Ah"; "Kd"; "7s"] 7.5 100 None []
    [tiedCheck; tiedBet] None.

(** A decision as [makeAction] records it on street [st]. *)
Definition decisionOf (st : Street) (action : ActionType) (amount : option Q)
    (gtoFrequency : Q) (blunder : bool) : Decision :=
  mkDecision st action amount gtoFrequency 0 bet 0.40 blunder.

(** A check played 55% of the time, a fold that is a blunder, and a bet
    played 90% of the time. *)
Definition marginalCheck : Decision := decisionOf flop check None 0.55 false.
Definition blunderFold : Decision := decisionOf flop fold None 0.0 true.
Definition nearOptimalBet : Decision := decisionOf turn bet (Some 0.33) 0.9 false.

(** An amount in the required range: positive when present. *)
Definition amountInRange (amount : option Q) : Prop :=
  forall a, amount = Some a -> 0 < a.

(** The pots seen along a sequence of hook states. *)
Definition pots (hs : list Hook) : list Q :=
  map (fun hk => gs_pot (gameState hk)) hs.

(** The opening state laid out on a heap: the state object on cell 1,
    its board, players and action history on cells 2, 3 and 4. *)
Definition openingHeap : gmap Heap.loc Heap.object :=
  <[1%positive := Heap.OGameState flop 7.5 2%positive 3%positive 4%positive BTN]>
  (<[2%positive := Heap.OCards (gs_board createInitialGameState)]>
  (<[3%positive := Heap.OPlayers (gs_players createInitialGameState)]>
  (<[4%positive := Heap.OActions []]> ∅))).

(** The board lengths seen along a sequence of hook states, runs of the
    same length collapsed to one entry. *)
Fixpoint collapse (l : list nat) : list nat :=
  match l with
  | [] => []
  | x :: l' =>
      match l' with
      | y :: _ => if Nat.eqb x y then collapse l' else x :: collapse l'
      | [] => [x]
      end
  end.

Definition boardLengths (hs : list Hook) : list nat :=
  collapse (map (fun hk => length (gs_board (gameState hk))) hs).

(** The lengths to expect from a hand that has [streetsLeft] cards still
    to come and [n] cards on the board: one more card per submitted
    action until a fold or the last street. *)
Fixpoint expectedLengths (streetsLeft n : nat)
    (submitted : list (ActionType * option Q)) : list nat :=
  match streetsLeft, submitted with
  | S k, (action, _) :: rest =>
      if bool_decide (action = fold) then [n]
      else n :: expectedLengths k (S n) rest
  | _, _ => [n]
  end.

(** Renaming the suit character of a card string. *)
Definition permuteSuit (sigma : ascii -> ascii) (card : string) : string :=
  match card with
  | String r (String s rest) => String r (String (sigma s) rest)
  | _ => card
  end.

(** The renaming that exchanges hearts and clubs. *)
Definition swapHeartsClubs (a : ascii) : ascii :=
  if Ascii.eqb a "h"%char then "c"%char
  else if Ascii.eqb a "c"%char then "h"%char else a.

(** ** More of the sources

    [cardToString] of [types/poker.ts], the tiers and counters of the
    hand review, the classification of a decision card, the buttons of
    [ActionButtons] and the seats found by [PokerTable]. *)

Definition rankChar (r : Rank) : ascii :=
  match r with
  | R2 => "2" | R3 => "3" | R4 => "4" | R5 => "5" | R6 => "6" | R7 => "7"
  | R8 => "8" | R9 => "9" | RT => "T" | RJ => "J" | RQ => "Q" | RK => "K"
  | RA => "A"
  end%char.

Definition suitChar (s : Suit) : ascii :=
  match s with
  | suit_h => "h" | suit_d => "d" | suit_c => "c" | suit_s => "s"
  end%char.

(** [cardToString]: the template literal [rank ++ suit]. *)
Definition cardToString (card : Card) : CardString :=
  String (rankChar (rank card)) (String (suitChar (suit card)) EmptyString).

(** The strings of the type [CardString]: a rank character followed by a
    suit character. *)
Definition isRankChar (a : ascii) : bool :=
  existsb (Ascii.eqb a) (list_ascii_of_string "23456789TJQKA").

Definition isSuitChar (a : ascii) : bool :=
  existsb (Ascii.eqb a) (list_ascii_of_string "hdcs").

Definition isCardString (s : string) : bool :=
  match s with
  | String r (String u EmptyString) => isRankChar r && isSuitChar u
  | _ => false
  end.

(** [x >= y] on numbers. *)
Definition geb (x y : Q) : bool := Qle_bool y x.

(** [getScoreColor], [getScoreEmoji] and [getScoreFeedback]. *)
Definition getScoreColor (score : Q) : string :=
  if geb score 85 then "#4caf50"
  else if geb score 70 then "#ff9800"
  else "#f44336".

Definition getScoreEmoji (score : Q) : string :=
  if geb score 90 then "⭐⭐⭐"
  else if geb score 75 then "⭐⭐"
  else if geb score 60 then "⭐"
  else "💔".

Definition getScoreFeedback (score : Q) : string :=
  if geb score 90 then "Excellent! Your decisions are very close to GTO."
  else if geb score 75
    then "Good work! A few small adjustments will improve your play."
  else if geb score 60 then "Decent effort. Review the blunders to improve."
  else "Keep practicing! Focus on avoiding major blunders.".

(** The two counters of the review summary:
    [decisions.filter(d => d.isBlunder).length] and
    [decisions.filter(d => !d.isBlunder).length]. *)
Definition blunderCount (ds : list Decision) : nat :=
  length (List.filter (fun d => d_isBlunder d) ds).

Definition goodCount (ds : list Decision) : nat :=
  length (List.filter (fun d => negb (d_isBlunder d)) ds).

(** [DecisionCard]: the two flags it computes, the colour of its border
    and the three feedback paragraphs it may render, each under its own
    condition. *)
Definition isGoodDecision (d : Decision) : bool :=
  negb (d_isBlunder d) && Js.gtb (d_gtoFrequency d) 0.1.

Definition isMarginal (d : Decision) : bool :=
  negb (d_isBlunder d) && Qle_bool (d_gtoFrequency d) 0.1.

Definition borderColor (d : Decision) : string :=
  if d_isBlunder d then "#f44336"
  else if isGoodDecision d then "#4caf50" else "#ff9800".

Inductive Feedback := BlunderWarning | MarginalNote | GoodNote.

Definition feedbackShown (d : Decision) : list Feedback :=
  (if d_isBlunder d then [BlunderWarning] else [])
  ++ (if negb (d_isBlunder d) && isMarginal d then [MarginalNote] else [])
  ++ (if isGoodDecision d then [GoodNote] else []).

(** [ActionButtons]: the calls of [onAction] its buttons make, in the
    order the buttons are rendered. *)
Definition betSizes : list (string * Q) :=
  [("33% Pot", 0.33); ("50% Pot", 0.5); ("75% Pot", 0.75); ("Pot", 1.0)].

Definition ActionButtons (canCheck canCall : bool) (callAmount : option Q)
    : list (ActionType * option Q) :=
  (if negb canCheck then [(fold, None)] else [])
  ++ (if canCheck then [(check, None)]
      else if canCall then [(call, callAmount)] else [])
  ++ map (fun size => (if canCheck then bet else raise, Some (snd size))) betSizes.

(** [PokerTable]: the hero is the first player flagged as hero, the
    villain the first player who is not. *)
Definition heroOf (players : list Player) : option Player :=
  Js.find (fun p => pl_isHero p) players.

Definition villainOf (players : list Player) : option Player :=
  Js.find (fun p => negb (pl_isHero p)) players.

(** The hole cards of the hero the table shows, none when no player is
    flagged or the hero's cards are hidden. *)
Definition heroCards (g : GameState) : list Card :=
  match heroOf (gs_players g) with
  | Some p => default [] (pl_cards p)
  | None => []
  end.

(** The run of [processAction] with the cells of the copy's three arrays
    in view: [b], [pl] and [ah] are what the [board], [players] and
    [actionHistory] fields of the copy hold. *)
Definition tracked (h0 : gmap Heap.loc Heap.object) (newState : Heap.loc)
    (g : GameState) (b pl ah : Heap.loc) (h : gmap Heap.loc Heap.object) : Prop :=
  Heap.running h0 newState g h
  /\ h !! newState
     = Some (Heap.OGameState (gs_street g) (gs_pot g) b pl ah (gs_currentPlayer g)).

(** Whether [processAction] deals a card: the action is not a fold and
    the next street is the turn or the river. *)
Definition dealsCard (st : Street) (action : ActionType) : bool :=
  negb (bool_decide (action = fold))
  && (bool_decide (getNextStreet st = turn)
      || bool_decide (getNextStreet st = river)).

(** The hook state after a sequence of clicks, each handled by
    [makeAction] on the state the previous one left. *)
Definition handAfter (hk : Hook) (submitted : list (ActionType * option Q)) : Hook :=
  fold_left (fun hk s => makeAction hk (fst s) (snd s)) submitted hk.

(** The action record a decision stands for. *)
Definition recordOf (d : Decision) : PlayerAction :=
  mkPlayerAction (d_action d) (d_amount d) (d_street d).

(** The frequencies a solution offers, added up, and the number of board
    cards that goes with a street. *)
Definition sumFrequencies (s : GTOSolution) : Q :=
  fold_right Qplus 0 (map ga_frequency (sol_actions s)).

Definition cardsOnStreet (st : Street) : nat :=
  match st with
  | preflop => 0
  | flop => 3
  | turn => 4
  | river => 5
  end.

(** ** Properties *)

(** *** JavaScript primitives *)

Lemma gtb_true x y : Js.gtb x y = true <-> y < x.
Proof.
  unfold Js.gtb. rewrite negb_true_iff.
  destruct (Qle_bool x y) eqn:E.
  - apply Qle_bool_iff in E. split; [discriminate | intros H; lra].
  - split; [intros _ | reflexivity].
    apply Qnot_le_lt. intros H. apply Qle_bool_iff in H. congruence.
Qed.

Lemma gtb_false x y : Js.gtb x y = false <-> x <= y.
Proof.
  destruct (Js.gtb x y) eqn:E.
  - apply gtb_true in E. split; [discriminate | intros H; lra].
  - split; [intros _ | reflexivity].
    apply Qnot_lt_le. intros H. apply gtb_true in H. congruence.
Qed.

Lemma truthy_false_num o : Js.truthy o = false -> Js.num o == 0.
Proof.
  destruct o as [x|]; simpl; [|reflexivity].
  rewrite negb_false_iff. apply Qeq_bool_eq.
Qed.

Lemma Math_max_r x y : x <= y -> Js.Math_max x y = y.
Proof.
  intros H. unfold Js.Math_max. apply Qle_bool_iff in H. rewrite H. reflexivity.
Qed.

#[global] Instance Math_round_proper : Proper (Qeq ==> Qeq) Js.Math_round.
Proof. intros x y E. unfold Js.Math_round. rewrite E. reflexivity. Qed.

(** *** Best action *)

Section BestAction.

Implicit Types (a x : GTOAction) (l pre post : list GTOAction).

(** The running best of the reduction splits what has been scanned
    into strictly worse lines before it and no better lines after. *)
Lemma reduce_betterOf_split l : forall pre x post,
  (forall a, a ∈ pre -> ga_ev a < ga_ev x) ->
  (forall a, a ∈ post -> ga_ev a <= ga_ev x) ->
  exists pre' post',
    pre ++ x :: post ++ l = pre' ++ fold_left betterOf l x :: post'
    /\ (forall a, a ∈ pre' -> ga_ev a < ga_ev (fold_left betterOf l x))
    /\ (forall a, a ∈ post' -> ga_ev a <= ga_ev (fold_left betterOf l x)).
Proof.
  induction l as [|y l IH]; intros pre x post Hpre Hpost; simpl.
  - exists pre, post. rewrite app_nil_r. auto.
  - unfold betterOf at 2 4 6. destruct (Js.gtb (ga_ev y) (ga_ev x)) eqn:E.
    + apply gtb_true in E.
      destruct (IH (pre ++ x :: post) y []) as (pre' & post' & Heq & H1 & H2).
      * intros a Ha. apply elem_of_app in Ha as [Ha|Ha].
        -- specialize (Hpre a Ha). lra.
        -- apply elem_of_cons in Ha as [->|Ha]; [exact E|].
           specialize (Hpost a Ha). lra.
      * intros a Ha. apply elem_of_nil in Ha. contradiction.
      * exists pre', post'. split; [|auto].
        rewrite <- Heq. simpl. rewrite <- !app_assoc. reflexivity.
    + apply gtb_false in E.
      destruct (IH pre x (post ++ [y])) as (pre' & post' & Heq & H1 & H2).
      * exact Hpre.
      * intros a Ha. apply elem_of_app in Ha as [Ha|Ha]; [auto|].
        apply list_elem_of_singleton in Ha as ->. exact E.
      * exists pre', post'. split; [|auto].
        rewrite <- Heq. rewrite <- !app_assoc. reflexivity.
Qed.

End BestAction.

(** On a non-empty list the reduction returns. *)
Lemma getBestAction_nonempty (solution : GTOSolution) :
  sol_actions solution <> [] -> exists best, getBestAction solution = Some best.
Proof.
  unfold getBestAction. destruct (sol_actions solution) as [|x l].
  - intros H. contradiction.
  - intros _. eexists. reflexivity.
Qed.

(** C1, as amended: for every solution with a non-empty [actions] list,
    [getBestAction] returns an offered action of maximum [ev], and among
    the actions tied for that maximum it returns the one that comes first
    in the list: every action before it has a strictly smaller [ev],
    every action after it an [ev] that is no larger.  The frequency plays
    no part in the choice. *)
Theorem getBestAction_first_max (solution : GTOSolution) :
  sol_actions solution <> [] ->
  exists best pre post,
    getBestAction solution = Some best
    /\ sol_actions solution = pre ++ best :: post
    /\ (forall a, a ∈ pre -> ga_ev a < ga_ev best)
    /\ (forall a, a ∈ post -> ga_ev a <= ga_ev best)
    /\ (forall a, a ∈ sol_actions solution -> ga_ev a <= ga_ev best).
Proof.
  unfold getBestAction. destruct (sol_actions solution) as [|x l] eqn:E.
  - intros H. contradiction.
  - intros _. simpl.
    destruct (reduce_betterOf_split l [] x []) as (pre & post & Heq & H1 & H2).
    + intros a Ha. apply elem_of_nil in Ha. contradiction.
    + intros a Ha. apply elem_of_nil in Ha. contradiction.
    + simpl in Heq. exists (fold_left betterOf l x), pre, post.
      repeat split; auto.
      intros a Ha. rewrite Heq in Ha.
      apply elem_of_app in Ha as [Ha|Ha].
      * apply Qlt_le_weak. auto.
      * apply elem_of_cons in Ha as [->|Ha]; [apply Qle_refl | auto].
Qed.

Lemma getBestAction_first_max_witness :
  exists best pre post,
    getBestAction tiedSolution = Some best
    /\ sol_actions tiedSolution = pre ++ best :: post
    /\ (forall a, a ∈ pre -> ga_ev a < ga_ev best)
    /\ (forall a, a ∈ post -> ga_ev a <= ga_ev best)
    /\ (forall a, a ∈ sol_actions tiedSolution -> ga_ev a <= ga_ev best).
Proof. apply (getBestAction_first_max tiedSolution). discriminate. Defined.

(** C1, as stated, fails on two lines of equal EV: the check (played 30%
    of the time) is listed before the bet (played 70%), both with EV 1;
    [getBestAction] returns the check although the bet ties it and is
    played more often. *)
Lemma getBestAction_ignores_frequency :
  getBestAction tiedSolution = Some tiedCheck
  /\ tiedBet ∈ sol_actions tiedSolution
  /\ ga_ev tiedBet == ga_ev tiedCheck
  /\ ga_frequency tiedCheck < ga_frequency tiedBet
  /\ ~ Spec.prefersFrequent tiedSolution tiedCheck.
Proof.
  assert (Hin : tiedBet ∈ sol_actions tiedSolution).
  { simpl. apply elem_of_cons. right. apply elem_of_cons. left. reflexivity. }
  assert (Hev : ga_ev tiedBet == ga_ev tiedCheck) by reflexivity.
  assert (Hfr : ga_frequency tiedCheck < ga_frequency tiedBet) by reflexivity.
  repeat split; try assumption.
  intros H. specialize (H tiedBet Hin Hev). lra.
Qed.

(** *** The successor state, field by field *)

Lemma processAction_players state action amount :
  gs_players (processAction state action amount) = gs_players state.
Proof.
  destruct state as [st p b pl ah cp], st, action; unfold processAction; simpl;
    destruct (Js.truthy amount); reflexivity.
Qed.

Lemma processAction_currentPlayer state action amount :
  gs_currentPlayer (processAction state action amount) = gs_currentPlayer state.
Proof.
  destruct state as [st p b pl ah cp], st, action; unfold processAction; simpl;
    destruct (Js.truthy amount); reflexivity.
Qed.

Lemma processAction_actionHistory state action amount :
  gs_actionHistory (processAction state action amount)
  = gs_actionHistory state ++ [mkPlayerAction action amount (gs_street state)].
Proof.
  destruct state as [st p b pl ah cp], st, action; unfold processAction; simpl;
    destruct (Js.truthy amount); reflexivity.
Qed.

Lemma processAction_street state action amount :
  gs_street (processAction state action amount)
  = if bool_decide (action = fold) then gs_street state
    else getNextStreet (gs_street state).
Proof.
  destruct state as [st p b pl ah cp], st, action; unfold processAction; simpl;
    destruct (Js.truthy amount); reflexivity.
Qed.

Lemma processAction_board state action amount :
  gs_board (processAction state action amount)
  = if bool_decide (action = fold) then gs_board state
    else match gs_street state with
         | preflop => gs_board state
         | flop => gs_board state ++ [parseCard "3c"]
         | turn | river => gs_board state ++ [parseCard "9h"]
         end.
Proof.
  destruct state as [st p b pl ah cp], st, action; unfold processAction; simpl;
    destruct (Js.truthy amount); reflexivity.
Qed.

Lemma processAction_pot state action amount :
  gs_pot (processAction state action amount)
  == match action with
     | bet | raise => gs_pot state + Js.num amount * gs_pot state
     | call => gs_pot state + Js.num amount
     | fold | check => gs_pot state
     end.
Proof.
  destruct state as [st p b pl ah cp], st, action; unfold processAction; simpl;
    destruct (Js.truthy amount) eqn:E; simpl; try reflexivity;
    apply truthy_false_num in E; rewrite E; ring.
Qed.

Lemma processAction_changes_state state action amount :
  processAction state action amount <> state.
Proof.
  intros H. apply (f_equal gs_actionHistory) in H.
  rewrite processAction_actionHistory in H.
  apply (f_equal length) in H. rewrite length_app in H. simpl in H. lia.
Qed.

(** *** Acceptance of actions *)

(** C2, as amended: neither [processAction] nor [makeAction] checks the
    action type against the betting state.  While the hand is not
    complete every submitted action, of any type and in any state, is
    applied: the decision is recorded and the game state is replaced by
    the successor computed by [processAction], which differs from the
    state before and carries the action at the end of its history.  The
    only submissions left without effect are those made once the hand
    is complete, and they are dropped silently, without an error. *)
Theorem makeAction_accepts_every_action (hk : Hook) (action : ActionType)
    (amount : option Q) :
  (isHandComplete hk = false ->
     gameState (makeAction hk action amount)
       = processAction (gameState hk) action amount
     /\ gameState (makeAction hk action amount) <> gameState hk
     /\ gs_actionHistory (gameState (makeAction hk action amount))
        = gs_actionHistory (gameState hk)
            ++ [mkPlayerAction action amount (gs_street (gameState hk))]
     /\ length (decisions (makeAction hk action amount))
        = S (length (decisions hk)))
  /\ (isHandComplete hk = true -> makeAction hk action amount = hk).
Proof.
  unfold makeAction. split; intros ->.
  - cbn [gameState decisions]. repeat split.
    + apply processAction_changes_state.
    + apply processAction_actionHistory.
    + rewrite length_app. simpl. lia.
  - reflexivity.
Qed.

Lemma makeAction_accepts_every_action_witness :
  gameState (makeAction usePokerGame call (Some 2.5))
    = processAction (gameState usePokerGame) call (Some 2.5)
  /\ gameState (makeAction usePokerGame call (Some 2.5)) <> gameState usePokerGame
  /\ gs_actionHistory (gameState (makeAction usePokerGame call (Some 2.5)))
     = gs_actionHistory (gameState usePokerGame)
         ++ [mkPlayerAction call (Some 2.5) (gs_street (gameState usePokerGame))]
  /\ length (decisions (makeAction usePokerGame call (Some 2.5)))
     = S (length (decisions usePokerGame)).
Proof.
  apply (makeAction_accepts_every_action usePokerGame call (Some 2.5)).
  reflexivity.
Defined.

(** C2, as stated, fails at the start of the hand: nothing has been bet
    on the flop (the history is empty), yet a call of 2.5bb is applied,
    the pot grows from 7.5 to 10 and the hand moves on to the turn. *)
Lemma call_without_bet_is_applied :
  gs_actionHistory (gameState usePokerGame) = []
  /\ isHandComplete usePokerGame = false
  /\ gameState (makeAction usePokerGame call (Some 2.5)) <> gameState usePokerGame
  /\ gs_pot (gameState usePokerGame) == 7.5
  /\ gs_pot (gameState (makeAction usePokerGame call (Some 2.5))) == 10
  /\ gs_street (gameState (makeAction usePokerGame call (Some 2.5))) = turn
  /\ gs_actionHistory (gameState (makeAction usePokerGame call (Some 2.5)))
     = [mkPlayerAction call (Some 2.5) flop].
Proof.
  repeat split.
  intros H. apply (f_equal gs_street) in H. discriminate H.
Qed.

(** *** Pot arithmetic *)

(** C3, as amended: a bet and a raise are treated alike, each adds
    [amount * currentPot] to the pot (nothing when the amount is absent
    or zero), and [processAction] leaves every player's stack as it
    was. *)
Theorem bet_and_raise_add_fraction_of_pot (state : GameState) (amount : option Q) :
  gs_pot (processAction state bet amount)
    == gs_pot state + Js.num amount * gs_pot state
  /\ gs_pot (processAction state raise amount)
    == gs_pot state + Js.num amount * gs_pot state
  /\ gs_players (processAction state bet amount) = gs_players state
  /\ gs_players (processAction state raise amount) = gs_players state.
Proof.
  repeat split.
  - apply (processAction_pot state bet).
  - apply (processAction_pot state raise).
  - apply processAction_players.
  - apply processAction_players.
Qed.

(** C3, as stated, fails for a raise of 0.5 into the opening pot of
    7.5bb: the pot grows by 3.75, not by the 0.5 specified, and the
    stacks (100 and 97.5) are what they were, so no stack went down by
    the amount the pot went up. *)
Lemma raise_adds_fraction_and_keeps_stacks :
  let state := createInitialGameState in
  let state' := processAction state raise (Some 0.5) in
  gs_pot state' - gs_pot state == 3.75
  /\ ~ gs_pot state' - gs_pot state == 0.5
  /\ map pl_stack (gs_players state') = map pl_stack (gs_players state)
  /\ ~ (exists p p', p ∈ gs_players state /\ p' ∈ gs_players state'
          /\ pl_position p' = pl_position p
          /\ pl_stack p' == pl_stack p - (gs_pot state' - gs_pot state)).
Proof.
  cbv zeta. repeat split.
  - intros H. vm_compute in H. discriminate H.
  - intros (p & p' & Hp & Hp' & Hpos & Hst).
    rewrite processAction_players in Hp'.
    simpl in Hp, Hp'.
    repeat (apply elem_of_cons in Hp as [->|Hp]);
      try (apply elem_of_nil in Hp; contradiction);
    repeat (apply elem_of_cons in Hp' as [->|Hp']);
      try (apply elem_of_nil in Hp'; contradiction);
    try discriminate Hpos;
    vm_compute in Hst; discriminate Hst.
Qed.

Lemma processAction_pot_bounds state action amount :
  0 <= gs_pot state -> amountInRange amount ->
  gs_pot state <= gs_pot (processAction state action amount)
  /\ 0 <= gs_pot (processAction state action amount).
Proof.
  intros Hpot Hamt. rewrite processAction_pot.
  assert (Hnum : 0 <= Js.num amount).
  { destruct amount as [a|]; simpl; [|lra].
    specialize (Hamt a eq_refl). lra. }
  assert (Hprod : 0 <= Js.num amount * gs_pot state)
    by (apply Qmult_le_0_compat; assumption).
  destruct action; split; lra.
Qed.

Lemma makeAction_pot_bounds hk action amount :
  0 <= gs_pot (gameState hk) -> amountInRange amount ->
  gs_pot (gameState hk) <= gs_pot (gameState (makeAction hk action amount))
  /\ 0 <= gs_pot (gameState (makeAction hk action amount)).
Proof.
  intros Hpot Hamt. unfold makeAction.
  destruct (isHandComplete hk); cbn [gameState].
  - split; lra.
  - apply processAction_pot_bounds; assumption.
Qed.

Lemma play_head hk submitted : head (play hk submitted) = Some hk.
Proof. destruct submitted as [|[action amount] rest]; reflexivity. Qed.

Lemma pots_sorted submitted : forall hk,
  0 <= gs_pot (gameState hk) ->
  Forall (fun s => amountInRange (snd s)) submitted ->
  Sorted Qle (pots (play hk submitted)).
Proof.
  induction submitted as [|[action amount] rest IH]; intros hk Hpot Hall.
  - repeat constructor.
  - apply Forall_cons in Hall as [Hamt Hall]. simpl in Hamt.
    destruct (makeAction_pot_bounds hk action amount Hpot Hamt) as [Hle Hpos].
    cbn [play pots map]. constructor.
    + apply IH; assumption.
    + pose proof (play_head (makeAction hk action amount) rest) as Hhd.
      destruct (play (makeAction hk action amount) rest) as [|hk' tl];
        [discriminate Hhd|].
      injection Hhd as ->. constructor. exact Hle.
Qed.

(** C8: on a state whose pot is non-negative, an action whose amount,
    when present, is positive never lowers the pot, and the pot of the
    successor is again non-negative; so along a hand played from the
    opening state with amounts in that range, each pot is at least the
    one before. *)
Theorem pot_never_decreases (state : GameState) (action : ActionType)
    (amount : option Q) (submitted : list (ActionType * option Q)) :
  (0 <= gs_pot state -> amountInRange amount ->
     gs_pot state <= gs_pot (processAction state action amount)
     /\ 0 <= gs_pot (processAction state action amount))
  /\ (Forall (fun s => amountInRange (snd s)) submitted ->
      Sorted Qle (pots (play usePokerGame submitted))).
Proof.
  split.
  - apply processAction_pot_bounds.
  - apply pots_sorted. vm_compute. discriminate.
Qed.

Lemma pot_never_decreases_witness :
  (gs_pot createInitialGameState
     <= gs_pot (processAction createInitialGameState bet (Some 0.33))
   /\ 0 <= gs_pot (processAction createInitialGameState bet (Some 0.33)))
  /\ Sorted Qle (pots (play usePokerGame [(bet, Some 0.33); (call, Some 2.5)])).
Proof.
  destruct (pot_never_decreases createInitialGameState bet (Some 0.33)
              [(bet, Some 0.33); (call, Some 2.5)]) as [Hstep Hhand].
  split.
  - apply Hstep.
    + vm_compute. discriminate.
    + intros a [= <-]. reflexivity.
  - apply Hhand. repeat constructor; intros a [= <-]; reflexivity.
Defined.

(** *** Board lengths along a hand *)

Lemma collapse_repeat n k : collapse (repeat n (S k)) = [n].
Proof.
  induction k as [|k IH]; [reflexivity|].
  change (repeat n (S (S k))) with (n :: repeat n (S k)).
  change (collapse (n :: repeat n (S k)))
    with (if Nat.eqb n n then collapse (repeat n (S k))
          else n :: collapse (repeat n (S k))).
  rewrite Nat.eqb_refl. exact IH.
Qed.

Lemma collapse_cons_ne x y l :
  x <> y -> collapse (x :: y :: l) = x :: collapse (y :: l).
Proof.
  intros H. change (collapse (x :: y :: l))
    with (if Nat.eqb x y then collapse (y :: l) else x :: collapse (y :: l)).
  apply Nat.eqb_neq in H. rewrite H. reflexivity.
Qed.

Lemma collapse_cons_repeat x y k :
  x <> y -> collapse (x :: repeat y (S k)) = [x; y].
Proof.
  intros H. change (repeat y (S k)) with (y :: repeat y k).
  rewrite collapse_cons_ne by exact H. f_equal.
  apply (collapse_repeat y k).
Qed.

Lemma collapse_cons_hd x y l :
  head l = Some y -> x <> y -> collapse (x :: l) = x :: collapse l.
Proof.
  destruct l as [|z l]; simpl head; intros [= ->] H.
  apply collapse_cons_ne. exact H.
Qed.

(** Once the hand is complete the hook state stays put. *)
Lemma play_complete hk submitted :
  isHandComplete hk = true ->
  play hk submitted = repeat hk (S (length submitted)).
Proof.
  intros Hc. induction submitted as [|[action amount] rest IH];
    [reflexivity|].
  simpl. f_equal. unfold makeAction at 1. rewrite Hc. exact IH.
Qed.

Lemma boardLengths_complete hk submitted :
  isHandComplete hk = true ->
  map (fun hk => length (gs_board (gameState hk))) (play hk submitted)
  = repeat (length (gs_board (gameState hk))) (S (length submitted)).
Proof.
  intros Hc. rewrite play_complete by exact Hc.
  generalize (S (length submitted)). intros n.
  induction n as [|n IH]; simpl; [reflexivity | f_equal; exact IH].
Qed.

Lemma makeAction_isHandComplete hk action amount :
  isHandComplete hk = false ->
  isHandComplete (makeAction hk action amount)
  = bool_decide (action = fold)
    || bool_decide (gs_street (processAction (gameState hk) action amount) = river).
Proof.
  intros Hc. unfold makeAction. rewrite Hc. cbn [isHandComplete].
  destruct (bool_decide (action = fold)
            || bool_decide (gs_street (processAction (gameState hk) action amount) = river));
    reflexivity.
Qed.

Lemma makeAction_gameState hk action amount :
  isHandComplete hk = false ->
  gameState (makeAction hk action amount)
  = processAction (gameState hk) action amount.
Proof. intros Hc. unfold makeAction. rewrite Hc. reflexivity. Qed.

Lemma lengths_from_turn hk submitted n :
  isHandComplete hk = false ->
  gs_street (gameState hk) = turn ->
  length (gs_board (gameState hk)) = n ->
  boardLengths (play hk submitted) = expectedLengths 1 n submitted.
Proof.
  intros Hc Hst Hlen. destruct submitted as [|[action amount] rest].
  - unfold boardLengths. simpl. rewrite Hlen. reflexivity.
  - pose proof (makeAction_isHandComplete hk action amount Hc) as Hc'.
    pose proof (makeAction_gameState hk action amount Hc) as Hg.
    rewrite processAction_street, Hst in Hc'.
    assert (Hdone : isHandComplete (makeAction hk action amount) = true).
    { rewrite Hc'. destruct action; reflexivity. }
    unfold boardLengths. cbn [play map expectedLengths].
    rewrite boardLengths_complete by exact Hdone.
    rewrite Hg, processAction_board, Hst, Hlen.
    destruct (bool_decide (action = fold)).
    + rewrite Hlen.
      change (n :: repeat n (S (length rest))) with (repeat n (S (S (length rest)))).
      apply collapse_repeat.
    + rewrite length_app, Hlen, Nat.add_1_r.
      destruct rest; apply collapse_cons_repeat; lia.
Qed.

Lemma lengths_from_flop hk submitted n :
  isHandComplete hk = false ->
  gs_street (gameState hk) = flop ->
  length (gs_board (gameState hk)) = n ->
  boardLengths (play hk submitted) = expectedLengths 2 n submitted.
Proof.
  intros Hc Hst Hlen. destruct submitted as [|[action amount] rest].
  - unfold boardLengths. simpl. rewrite Hlen. reflexivity.
  - pose proof (makeAction_isHandComplete hk action amount Hc) as Hc'.
    pose proof (makeAction_gameState hk action amount Hc) as Hg.
    rewrite processAction_street, Hst in Hc'.
    cbn [expectedLengths].
    destruct (decide (action = fold)) as [->|Hnf].
    + unfold boardLengths. cbn [play map].
      rewrite boardLengths_complete by (rewrite Hc'; reflexivity).
      rewrite Hg, processAction_board.
      change (bool_decide (fold = fold)) with true. cbn iota. rewrite Hlen.
      change (n :: repeat n (S (length rest))) with (repeat n (S (S (length rest)))).
      apply collapse_repeat.
    + rewrite bool_decide_eq_false_2 by exact Hnf.
      assert (Hopen : isHandComplete (makeAction hk action amount) = false).
      { rewrite Hc'. destruct action; try reflexivity. contradiction. }
      assert (Hturn : gs_street (gameState (makeAction hk action amount)) = turn).
      { rewrite Hg, processAction_street, Hst.
        destruct action; try reflexivity. contradiction. }
      assert (Hlen' : length (gs_board (gameState (makeAction hk action amount))) = S n).
      { rewrite Hg, processAction_board, Hst.
        destruct action; try contradiction; simpl bool_decide; cbn iota;
          rewrite length_app, Hlen; simpl; lia. }
      assert (Hhd : head (map (fun hk => length (gs_board (gameState hk)))
                            (play (makeAction hk action amount) rest)) = Some (S n)).
      { destruct rest as [|[a2 m2] rest2]; simpl; rewrite Hlen'; reflexivity. }
      unfold boardLengths. cbn [play map]. rewrite Hlen.
      rewrite (collapse_cons_hd _ _ _ Hhd) by lia. f_equal.
      apply (lengths_from_turn _ rest (S n) Hopen Hturn Hlen').
Qed.

(** The lengths seen along a hand played from the opening state. *)
Lemma lengths_of_a_hand submitted :
  boardLengths (play usePokerGame submitted) = expectedLengths 2 3 submitted.
Proof. apply lengths_from_flop; reflexivity. Qed.

(** C4, as amended: a hand is created on the flop with three board
    cards already dealt, so along the actions applied by [makeAction] the
    board lengths run 3, 4, 5, or stop at a prefix of that when a fold
    ends the hand early (or fewer than two actions are submitted); all
    three lengths are seen exactly when the first two actions are not
    folds.  The flop-to-turn and turn-to-river transitions reveal one
    card each, and a fold reveals none. *)
Theorem board_lengths_of_a_hand (submitted : list (ActionType * option Q))
    (state : GameState) (action : ActionType) (amount : option Q) :
  (boardLengths (play usePokerGame submitted) = [3%nat]
   \/ boardLengths (play usePokerGame submitted) = [3; 4]%nat
   \/ boardLengths (play usePokerGame submitted) = [3; 4; 5]%nat)
  /\ (boardLengths (play usePokerGame submitted) = [3; 4; 5]%nat
      <-> exists a1 m1 a2 m2 rest,
            submitted = (a1, m1) :: (a2, m2) :: rest
            /\ a1 <> fold /\ a2 <> fold)
  /\ (action <> fold -> gs_street state = flop ->
      gs_street (processAction state action amount) = turn
      /\ length (gs_board (processAction state action amount))
         = S (length (gs_board state)))
  /\ (action <> fold -> gs_street state = turn ->
      gs_street (processAction state action amount) = river
      /\ length (gs_board (processAction state action amount))
         = S (length (gs_board state)))
  /\ gs_board (processAction state fold amount) = gs_board state.
Proof.
  rewrite lengths_of_a_hand. split; [|split; [|split; [|split]]].
  - destruct submitted as [|[a1 m1] [|[a2 m2] rest]]; cbn [expectedLengths];
      repeat case_bool_decide; auto.
  - split.
    + destruct submitted as [|[a1 m1] [|[a2 m2] rest]]; cbn [expectedLengths];
        repeat case_bool_decide; try discriminate.
      intros _. exists a1, m1, a2, m2, rest. auto.
    + intros (a1 & m1 & a2 & m2 & rest & -> & H1 & H2). cbn [expectedLengths].
      rewrite !bool_decide_eq_false_2 by assumption. reflexivity.
  - intros Hnf Hst. split.
    + rewrite processAction_street, Hst. destruct action; try reflexivity.
      contradiction.
    + rewrite processAction_board, Hst, bool_decide_eq_false_2 by assumption.
      rewrite length_app. simpl. lia.
  - intros Hnf Hst. split.
    + rewrite processAction_street, Hst. destruct action; try reflexivity.
      contradiction.
    + rewrite processAction_board, Hst, bool_decide_eq_false_2 by assumption.
      rewrite length_app. simpl. lia.
  - rewrite processAction_board. reflexivity.
Qed.

Lemma board_lengths_of_a_hand_witness :
  boardLengths (play usePokerGame [(check, None); (bet, Some 0.5)]) = [3; 4; 5]%nat
  /\ gs_street (processAction createInitialGameState check None) = turn
  /\ length (gs_board (processAction createInitialGameState check None)) = 4%nat.
Proof.
  destruct (board_lengths_of_a_hand [(check, None); (bet, Some 0.5)]
              createInitialGameState check None)
    as (_ & Hfull & Hflop & _ & _).
  split.
  - apply Hfull. exists check, None, bet, (Some 0.5), [].
    repeat split; discriminate.
  - apply Hflop; [discriminate | reflexivity].
Defined.

(** C4, as stated, fails on a hand played to the river by two checks:
    the board lengths seen are 3, 4, 5.  The hand never has an empty
    board, so the sequence is neither 0, 3, 4, 5 nor a prefix of it. *)
Lemma hand_starts_with_three_cards :
  gs_street createInitialGameState = flop
  /\ map (fun hk => length (gs_board (gameState hk)))
       (play usePokerGame [(check, None); (check, None)]) = [3; 4; 5]%nat
  /\ boardLengths (play usePokerGame [(check, None); (check, None)])
     = [3; 4; 5]%nat
  /\ ~ boardLengths (play usePokerGame [(check, None); (check, None)])
       `prefix_of` [0; 3; 4; 5]%nat.
Proof.
  repeat split.
  intros [k Hk]. vm_compute in Hk. discriminate Hk.
Qed.

(** What [processAction] does on a state that is still preflop: the
    street moves to the flop and the board stays empty. *)
Lemma preflop_to_flop_reveals_nothing :
  let state := mkGameState preflop 1.5 [] [] [] BTN in
  gs_street (processAction state check None) = flop
  /\ gs_board (processAction state check None) = [].
Proof. split; reflexivity. Qed.

(** *** Hand score *)

Lemma fold_left_total ds : forall acc,
  fold_left (fun total d => total + evLoss d) ds acc == acc + Spec.total ds.
Proof.
  induction ds as [|d ds IH]; intros acc; simpl.
  - unfold Spec.total. simpl. ring.
  - rewrite IH. unfold Spec.total. simpl.
    unfold evLoss, Spec.loss. destruct (d_isBlunder d); ring.
Qed.

(** On a non-empty hand the source computes the rounded maximum of 0 and
    [100 - average * 20], the average being that of the specification. *)
Lemma calculateScore_nonempty d ds :
  calculateScore (d :: ds)
  == Js.Math_round (Js.Math_max 0 (100 - Spec.average (d :: ds) * 20)).
Proof.
  unfold calculateScore. cbn [length Nat.eqb].
  assert (E : 100 - fold_left (fun total d0 => total + evLoss d0) (d :: ds) 0
                    / inject_Z (Z.of_nat (length (d :: ds))) * 20
              == 100 - Spec.average (d :: ds) * 20).
  { unfold Spec.average. rewrite fold_left_total. rewrite Qplus_0_l. reflexivity. }
  unfold Js.Math_max.
  destruct (Qle_bool 0 (100 - Spec.average (d :: ds) * 20)) eqn:E1.
  - rewrite <- E in E1. cbn [length] in E1 |- *. rewrite E1.
    apply Math_round_proper. exact E.
  - assert (E2 : Qle_bool 0 (100 - fold_left (fun total d0 => total + evLoss d0)
                                     (d :: ds) 0
                                   / inject_Z (Z.of_nat (length (d :: ds))) * 20)
                 = false) by (rewrite E; exact E1).
    cbn [length] in E2 |- *. rewrite E2. reflexivity.
Qed.

(* A decimal literal denotes the nearest double, as in JavaScript. *)
#[local] Set Warnings "-inexact-float".

(** The two hands above evaluated on doubles: the rounding errors of
    [1 - 0.55], [1 - 0.9] and their products do not move the scores. *)
Lemma calculateScore_on_doubles :
  Binary64.calculateScore [(false, 0.55%float)] = 87%float
  /\ Binary64.calculateScore [(true, 0%float); (false, 0.9%float)] = 69%float
  /\ Binary64.calculateScore [(false, 0.9%float); (true, 0%float)] = 69%float.
Proof. repeat split; vm_compute; reflexivity. Qed.

(** C6, as amended: a hand of one blunder and one non-blunder decision
    with [gtoFrequency] 0.9, in either order, has the unrounded value
    [100 - ((3.0 + 0.15) / 2) * 20 = 68.5], and [calculateScore] returns
    69, halves being rounded upwards. *)
Theorem blunder_and_near_optimal_score (d1 d2 : Decision) :
  d_isBlunder d1 = true ->
  d_isBlunder d2 = false ->
  d_gtoFrequency d2 == 0.9 ->
  Spec.score [d1; d2] == 68.5
  /\ calculateScore [d1; d2] == 69
  /\ calculateScore [d2; d1] == 69.
Proof.
  intros H1 H2 Hf.
  assert (Ha : forall ds, ds = [d1; d2] \/ ds = [d2; d1] ->
               100 - Spec.average ds * 20 == 68.5).
  { intros ds [-> | ->]; unfold Spec.average, Spec.total, Spec.loss; simpl;
      rewrite H1, H2, Hf; reflexivity. }
  assert (Hs : forall d d' , [d; d'] = [d1; d2] \/ [d; d'] = [d2; d1] ->
               calculateScore [d; d'] == 69).
  { intros d d' Hd. rewrite calculateScore_nonempty.
    rewrite Math_max_r by (rewrite (Ha _ Hd); vm_compute; discriminate).
    rewrite (Ha _ Hd). reflexivity. }
  repeat split.
  - unfold Spec.score, Spec.clamp.
    rewrite (Ha [d1; d2]) by auto.
    destruct (Qle_bool (100 - Spec.average [d1; d2] * 20) 0) eqn:E0.
    { apply Qle_bool_iff in E0. rewrite (Ha [d1; d2]) in E0 by auto.
      vm_compute in E0. contradiction E0. reflexivity. }
    destruct (Qle_bool 100 (100 - Spec.average [d1; d2] * 20)) eqn:E1.
    { apply Qle_bool_iff in E1. rewrite (Ha [d1; d2]) in E1 by auto.
      vm_compute in E1. contradiction E1. reflexivity. }
    apply Ha. auto.
  - apply Hs. auto.
  - apply Hs. auto.
Qed.

Lemma blunder_and_near_optimal_score_witness :
  Spec.score [blunderFold; nearOptimalBet] == 68.5
  /\ calculateScore [blunderFold; nearOptimalBet] == 69
  /\ calculateScore [nearOptimalBet; blunderFold] == 69.
Proof.
  apply (blunder_and_near_optimal_score blunderFold nearOptimalBet);
    reflexivity.
Defined.

(** C6, as stated, fails on the very hand it describes: the fold is a
    blunder (loss 3.0), the bet is played 90% of the time (loss 0.15),
    and the score returned is 69, not 68. *)
Lemma two_decision_score_is_69 :
  d_isBlunder blunderFold = true
  /\ d_isBlunder nearOptimalBet = false
  /\ d_gtoFrequency nearOptimalBet == 0.9
  /\ evLoss blunderFold == 3.0
  /\ evLoss nearOptimalBet == 0.15
  /\ calculateScore [blunderFold; nearOptimalBet] == 69
  /\ ~ calculateScore [blunderFold; nearOptimalBet] == 68.
Proof.
  repeat split. intros H. vm_compute in H. discriminate H.
Qed.

(** *** Suit renaming and the scenario matcher *)

Lemma matches_length_only street board board' handClass s :
  length board = length board' ->
  matches street board handClass s = matches street board' handClass s.
Proof. intros H. unfold matches. rewrite H. reflexivity. Qed.

Lemma find_ext {A} (p q : A -> bool) l :
  (forall x, p x = q x) -> Js.find p l = Js.find q l.
Proof.
  intros H. induction l as [|x l IH]; simpl; [reflexivity|].
  rewrite H, IH. reflexivity.
Qed.

Lemma findGTOSolution_length_only street board board' handClass :
  length board = length board' ->
  findGTOSolution street board handClass = findGTOSolution street board' handClass.
Proof.
  intros H. unfold findGTOSolution. apply find_ext.
  intros s. apply matches_length_only. exact H.
Qed.

(** A renaming of suits leaves the rank of every card alone. *)
Lemma permuteSuit_rank sigma card :
  rank (parseCard (permuteSuit sigma card)) = rank (parseCard card).
Proof. destruct card as [|r [|s rest]]; reflexivity. Qed.

(** C9: the only thing the matcher derives from a board is its number of
    cards, which a renaming of suits does not change; so a board and its
    image under any renaming of suits resolve to the same stored
    solution, whatever the street and hand class asked for.  In
    particular the monotone boards Qh Jh 7h and Qc Jc 7c, which the
    exchange of hearts and clubs maps to one another, resolve to the
    same solution, the wet-draw scenario when the hand class is a
    draw. *)
Theorem findGTOSolution_suit_renaming (sigma : ascii -> ascii) (street : string)
    (board : list string) (handClass : option string) :
  length (map (permuteSuit sigma) board) = length board
  /\ findGTOSolution street (map (permuteSuit sigma) board) handClass
     = findGTOSolution street board handClass
  /\ map (permuteSuit swapHeartsClubs) ["Qh"; "Jh"; "7h"] = ["Qc"; "Jc"; "7c"]
  /\ findGTOSolution street ["Qh"; "Jh"; "7h"] handClass
     = findGTOSolution street ["Qc"; "Jc"; "7c"] handClass
  /\ (exists s, findGTOSolution "flop" ["Qh"; "Jh"; "7h"] (Some "draw") = Some s
               /\ findGTOSolution "flop" ["Qc"; "Jc"; "7c"] (Some "draw") = Some s
               /\ sol_id s = "flop-btn-vs-co-wetdraw").
Proof.
  split; [apply length_map|].
  split; [apply findGTOSolution_length_only, length_map|].
  split; [reflexivity|].
  split; [apply findGTOSolution_length_only; reflexivity|].
  eexists. split; [reflexivity|]. split; reflexivity.
Qed.

(** *** [processAction] on the heap *)

Section HeapRules.

Import Heap.

Context {A B : Type}.
Implicit Types (h : heap) (l : loc) (o : object).

Lemma wp_ret (a : A) (post : A -> heap -> Prop) h :
  post a h -> wp (ret a) post h.
Proof. intros H. exact H. Qed.

Lemma wp_bind (m : M A) (k : A -> M B) (post : B -> heap -> Prop) h :
  wp m (fun a h' => wp (k a) post h') h -> wp (bind m k) post h.
Proof.
  unfold wp, bind. destruct (m h) as [[a h']|]; [auto | contradiction].
Qed.

Lemma wp_mono (m : M A) (post post' : A -> heap -> Prop) h :
  wp m post h -> (forall a h', post a h' -> post' a h') -> wp m post' h.
Proof.
  unfold wp. destruct (m h) as [[a h']|]; [auto | contradiction].
Qed.

End HeapRules.

Section HeapPrimitives.

Import Heap.

Implicit Types (h : heap) (l : loc) (o : object) (f : fields).

Lemma wp_alloc o (post : loc -> heap -> Prop) h :
  (forall l, h !! l = None -> post l (<[l := o]> h)) -> wp (alloc o) post h.
Proof.
  intros H. unfold wp, alloc. apply H.
  apply not_elem_of_dom. apply is_fresh.
Qed.

Lemma wp_load l o (post : object -> heap -> Prop) h :
  h !! l = Some o -> post o h -> wp (load l) post h.
Proof. intros Hl H. unfold wp, load. rewrite Hl. exact H. Qed.

Lemma wp_store l o o' (post : unit -> heap -> Prop) h :
  h !! l = Some o' -> post tt (<[l := o]> h) -> wp (store l o) post h.
Proof. intros Hl H. unfold wp, store. rewrite Hl. exact H. Qed.

Lemma wp_loadState l f (post : fields -> heap -> Prop) h :
  h !! l = Some (obj_of f) -> post f h -> wp (loadState l) post h.
Proof.
  intros Hl H. unfold loadState. apply wp_bind.
  apply (wp_load l (obj_of f)); [exact Hl|].
  destruct f. exact H.
Qed.

Lemma wp_loadCards l cs (post : list Card -> heap -> Prop) h :
  h !! l = Some (OCards cs) -> post cs h -> wp (loadCards l) post h.
Proof.
  intros Hl H. unfold loadCards. apply wp_bind.
  apply (wp_load l (OCards cs)); [exact Hl | exact H].
Qed.

Lemma wp_loadActions l acts (post : list PlayerAction -> heap -> Prop) h :
  h !! l = Some (OActions acts) -> post acts h -> wp (loadActions l) post h.
Proof.
  intros Hl H. unfold loadActions. apply wp_bind.
  apply (wp_load l (OActions acts)); [exact Hl | exact H].
Qed.

Lemma wp_set_street l f v (post : unit -> heap -> Prop) h :
  h !! l = Some (obj_of f) ->
  post tt (<[l := obj_of (mkFields v (f_pot f) (f_board f) (f_players f)
                            (f_actionHistory f) (f_currentPlayer f))]> h) ->
  wp (set_street l v) post h.
Proof.
  intros Hl H. unfold set_street. apply wp_bind.
  apply (wp_loadState l f); [exact Hl|].
  apply (wp_store l _ (obj_of f)); [exact Hl | exact H].
Qed.

Lemma wp_set_pot l f v (post : unit -> heap -> Prop) h :
  h !! l = Some (obj_of f) ->
  post tt (<[l := obj_of (mkFields (f_street f) v (f_board f) (f_players f)
                            (f_actionHistory f) (f_currentPlayer f))]> h) ->
  wp (set_pot l v) post h.
Proof.
  intros Hl H. unfold set_pot. apply wp_bind.
  apply (wp_loadState l f); [exact Hl|].
  apply (wp_store l _ (obj_of f)); [exact Hl | exact H].
Qed.

Lemma wp_set_board l f v (post : unit -> heap -> Prop) h :
  h !! l = Some (obj_of f) ->
  post tt (<[l := obj_of (mkFields (f_street f) (f_pot f) v (f_players f)
                            (f_actionHistory f) (f_currentPlayer f))]> h) ->
  wp (set_board l v) post h.
Proof.
  intros Hl H. unfold set_board. apply wp_bind.
  apply (wp_loadState l f); [exact Hl|].
  apply (wp_store l _ (obj_of f)); [exact Hl | exact H].
Qed.

Lemma wp_set_actionHistory l f v (post : unit -> heap -> Prop) h :
  h !! l = Some (obj_of f) ->
  post tt (<[l := obj_of (mkFields (f_street f) (f_pot f) (f_board f)
                            (f_players f) v (f_currentPlayer f))]> h) ->
  wp (set_actionHistory l v) post h.
Proof.
  intros Hl H. unfold set_actionHistory. apply wp_bind.
  apply (wp_loadState l f); [exact Hl|].
  apply (wp_store l _ (obj_of f)); [exact Hl | exact H].
Qed.

(** What a reference must point to for it to denote a state. *)
Lemma readState_Some h l g :
  readState h l = Some g <->
  exists b pl ah,
    h !! l = Some (obj_of (mkFields (gs_street g) (gs_pot g) b pl ah
                             (gs_currentPlayer g)))
    /\ h !! b = Some (OCards (gs_board g))
    /\ h !! pl = Some (OPlayers (gs_players g))
    /\ h !! ah = Some (OActions (gs_actionHistory g)).
Proof.
  unfold readState, obj_of. cbn. split.
  - destruct (h !! l) as [[st p b pl ah cp| | |]|] eqn:El; try discriminate.
    destruct (h !! b) as [[|cs| |]|] eqn:Eb; try discriminate.
    destruct (h !! pl) as [[| |ps|]|] eqn:Epl; try discriminate.
    destruct (h !! ah) as [[| | |acts]|] eqn:Eah; try discriminate.
    intros [= <-]. exists b, pl, ah. cbn. auto.
  - intros (b & pl & ah & -> & -> & -> & ->). destruct g; reflexivity.
Qed.

(** States read through cells that a larger heap shares are the same. *)
Lemma readState_weaken h h' l g :
  h ⊆ h' -> readState h l = Some g -> readState h' l = Some g.
Proof.
  intros Hsub. rewrite !readState_Some.
  intros (b & pl & ah & Hl & Hb & Hpl & Hah). exists b, pl, ah.
  repeat split; eapply lookup_weaken; eassumption.
Qed.

End HeapPrimitives.

Section HeapProcessAction.

(* The successor state computed on values, under a name that stays
   visible next to the heap version. *)
Local Abbreviation successor := processAction.

Import Heap.

Implicit Types (h : heap) (l : loc) (g gs : GameState).

Local Ltac distinct_cells :=
  let E := fresh in
  intros E; subst; unfold obj_of in *; congruence.

(** Allocating elsewhere keeps the run where it is. *)
Lemma running_alloc h0 newState g h l o :
  running h0 newState g h -> h !! l = None ->
  running h0 newState g (<[l := o]> h).
Proof.
  intros [Hsub Hfresh Hcopy] Hl. split.
  - apply insert_subseteq_r; [|exact Hsub].
    eapply lookup_weaken_None; eassumption.
  - exact Hfresh.
  - eapply readState_weaken; [|exact Hcopy].
    apply insert_subseteq. exact Hl.
Qed.

(** Overwriting the copy moves the run to the state now written there
    and leaves the caller's cells alone. *)
Lemma running_update h0 newState g h g' b pl ah :
  running h0 newState g h ->
  h !! b = Some (OCards (gs_board g')) ->
  h !! pl = Some (OPlayers (gs_players g')) ->
  h !! ah = Some (OActions (gs_actionHistory g')) ->
  running h0 newState g'
    (<[newState := obj_of (mkFields (gs_street g') (gs_pot g') b pl ah
                             (gs_currentPlayer g'))]> h).
Proof.
  intros [Hsub Hfresh Hcopy] Hb Hpl Hah.
  apply readState_Some in Hcopy as (b1 & pl1 & ah1 & Hn & _).
  split.
  - apply insert_subseteq_r; assumption.
  - exact Hfresh.
  - apply readState_Some. exists b, pl, ah.
    rewrite lookup_insert_eq.
    rewrite !lookup_insert_ne by distinct_cells. auto.
Qed.

Section Phases.

Variables (h0 : heap) (state : loc) (gs : GameState).
Hypothesis Hstate : readState h0 state = Some gs.

Lemma copy_runs newState b pl ah :
  h0 !! state = Some (obj_of (mkFields (gs_street gs) (gs_pot gs) b pl ah
                                (gs_currentPlayer gs))) ->
  h0 !! newState = None ->
  running h0 newState gs
    (<[newState := obj_of (mkFields (gs_street gs) (gs_pot gs) b pl ah
                             (gs_currentPlayer gs))]> h0).
Proof.
  intros Hl Hfresh.
  apply readState_Some in Hstate as (b' & pl' & ah' & Hl' & Hb & Hpl & Hah).
  rewrite Hl in Hl'. injection Hl' as <- <- <-.
  split.
  - apply insert_subseteq. exact Hfresh.
  - exact Hfresh.
  - apply readState_Some. exists b, pl, ah.
    rewrite lookup_insert_eq.
    rewrite !lookup_insert_ne by distinct_cells. auto.
Qed.

Lemma appendHistory_runs newState g h action amount :
  running h0 newState g h ->
  wp (appendHistory state newState action amount)
    (fun _ h' =>
       running h0 newState
         (with_actionHistory g
            (gs_actionHistory gs
               ++ [mkPlayerAction action amount (gs_street gs)])) h') h.
Proof.
  intros Hrun. pose proof Hrun as [Hsub Hfresh Hcopy].
  apply readState_Some in Hstate as (b0 & pl0 & ah0 & Hl0 & Hb0 & Hpl0 & Hah0).
  apply readState_Some in Hcopy as (b & pl & ah & Hn & Hb & Hpl & Hah).
  unfold appendHistory.
  apply wp_bind, (wp_loadState state _ _ h (lookup_weaken _ _ _ _ Hl0 Hsub)).
  apply wp_bind, (wp_loadActions ah0 _ _ h (lookup_weaken _ _ _ _ Hah0 Hsub)).
  apply wp_bind, wp_alloc. intros hist Hhist.
  eapply wp_set_actionHistory.
  { rewrite lookup_insert_ne by distinct_cells. exact Hn. }
  cbn [f_street f_pot f_board f_players f_actionHistory f_currentPlayer].
  apply (running_update h0 newState g _
           (with_actionHistory g
              (gs_actionHistory gs
                 ++ [mkPlayerAction action amount (gs_street gs)])) b pl hist).
  - apply running_alloc; assumption.
  - rewrite lookup_insert_ne by distinct_cells. exact Hb.
  - rewrite lookup_insert_ne by distinct_cells. exact Hpl.
  - rewrite lookup_insert_eq. reflexivity.
Qed.

Lemma set_pot_runs newState g h v :
  running h0 newState g h ->
  wp (loadState newState)
    (fun n h' =>
       wp (set_pot newState (f_pot n + v))
         (fun _ h'' => running h0 newState (with_pot g (gs_pot g + v)) h'') h') h.
Proof.
  intros Hrun. pose proof Hrun as [Hsub Hfresh Hcopy].
  apply readState_Some in Hcopy as (b & pl & ah & Hn & Hb & Hpl & Hah).
  apply (wp_loadState newState _ _ h Hn).
  eapply wp_set_pot; [exact Hn|].
  cbn [f_street f_pot f_board f_players f_actionHistory f_currentPlayer].
  apply (running_update h0 newState g h (with_pot g (gs_pot g + v)) b pl ah);
    assumption.
Qed.

Lemma updatePot_runs newState g h action amount :
  running h0 newState g h ->
  wp (updatePot state newState action amount)
    (fun _ h' =>
       running h0 newState
         (if bool_decide (action = bet) || bool_decide (action = raise) then
            with_pot g
              (gs_pot g + (if Js.truthy amount
                           then Js.num amount * gs_pot gs else 0))
          else if bool_decide (action = call) && Js.truthy amount then
            with_pot g (gs_pot g + Js.num amount)
          else g) h') h.
Proof.
  intros Hrun. pose proof Hrun as [Hsub Hfresh Hcopy].
  apply readState_Some in Hstate as (b0 & pl0 & ah0 & Hl0 & _).
  unfold updatePot.
  destruct (bool_decide (action = bet) || bool_decide (action = raise)).
  - apply wp_bind, (wp_loadState state _ _ h (lookup_weaken _ _ _ _ Hl0 Hsub)).
    cbn [f_pot]. apply wp_bind, set_pot_runs, Hrun.
  - destruct (bool_decide (action = call) && Js.truthy amount).
    + apply wp_bind, set_pot_runs, Hrun.
    + apply wp_ret. exact Hrun.
Qed.

Lemma dealCard_runs newState g h card :
  running h0 newState g h ->
  wp (bind (loadState state) (fun s =>
      bind (loadCards (f_board s)) (fun cs =>
      bind (alloc (OCards (cs ++ [card]))) (fun b =>
      set_board newState b))))
    (fun _ h' =>
       running h0 newState (with_board g (gs_board gs ++ [card])) h') h.
Proof.
  intros Hrun. pose proof Hrun as [Hsub Hfresh Hcopy].
  apply readState_Some in Hstate as (b0 & pl0 & ah0 & Hl0 & Hb0 & _).
  apply readState_Some in Hcopy as (b & pl & ah & Hn & Hb & Hpl & Hah).
  apply wp_bind, (wp_loadState state _ _ h (lookup_weaken _ _ _ _ Hl0 Hsub)).
  apply wp_bind, (wp_loadCards b0 _ _ h (lookup_weaken _ _ _ _ Hb0 Hsub)).
  apply wp_bind, wp_alloc. intros nb Hnb.
  eapply wp_set_board.
  { rewrite lookup_insert_ne by distinct_cells. exact Hn. }
  cbn [f_street f_pot f_board f_players f_actionHistory f_currentPlayer].
  apply (running_update h0 newState g _
           (with_board g (gs_board gs ++ [card])) nb pl ah).
  - apply running_alloc; assumption.
  - rewrite lookup_insert_eq. reflexivity.
  - rewrite lookup_insert_ne by distinct_cells. exact Hpl.
  - rewrite lookup_insert_ne by distinct_cells. exact Hah.
Qed.

Lemma progressStreet_runs newState g h action :
  running h0 newState g h ->
  wp (progressStreet state newState action)
    (fun _ h' =>
       running h0 newState
         (if negb (bool_decide (action = fold)) then
            let g' := with_street g (getNextStreet (gs_street gs)) in
            if bool_decide (gs_street g' = turn) then
              with_board g' (gs_board gs ++ [parseCard "3c"])
            else if bool_decide (gs_street g' = river) then
              with_board g' (gs_board gs ++ [parseCard "9h"])
            else g'
          else g) h') h.
Proof.
  intros Hrun. pose proof Hrun as [Hsub Hfresh Hcopy].
  pose proof Hstate as Hst0.
  apply readState_Some in Hst0 as (b0 & pl0 & ah0 & Hl0 & _).
  apply readState_Some in Hcopy as (b & pl & ah & Hn & Hb & Hpl & Hah).
  unfold progressStreet.
  destruct (negb (bool_decide (action = fold))); [|apply wp_ret; exact Hrun].
  apply wp_bind, (wp_loadState state _ _ h (lookup_weaken _ _ _ _ Hl0 Hsub)).
  apply wp_bind. eapply wp_set_street; [exact Hn|].
  cbn [f_street f_pot f_board f_players f_actionHistory f_currentPlayer].
  set (g' := with_street g (getNextStreet (gs_street gs))).
  assert (Hrun' : running h0 newState g'
            (<[newState := obj_of (mkFields (gs_street g') (gs_pot g') b pl ah
                                     (gs_currentPlayer g'))]> h))
    by (apply (running_update h0 newState g h g' b pl ah); assumption).
  cbv zeta.
  apply wp_bind. eapply wp_loadState; [apply lookup_insert_eq|].
  cbn [f_street].
  change (getNextStreet (gs_street gs)) with (gs_street g').
  destruct (bool_decide (gs_street g' = turn)).
  - apply dealCard_runs. exact Hrun'.
  - apply wp_bind. eapply wp_loadState; [apply lookup_insert_eq|].
    cbn [f_street].
    destruct (bool_decide (gs_street g' = river)).
    + apply dealCard_runs. exact Hrun'.
    + apply wp_ret. exact Hrun'.
Qed.

(** The whole call: it returns, the caller's heap is intact, and the
    reference returned denotes the successor computed on values. *)
Lemma processAction_runs action amount :
  wp (Heap.processAction state action amount)
    (fun newState h' =>
       running h0 newState (successor gs action amount) h') h0.
Proof.
  pose proof Hstate as Hst0.
  apply readState_Some in Hst0 as (b0 & pl0 & ah0 & Hl0 & _).
  unfold Heap.processAction.
  apply wp_bind, (wp_loadState state _ _ h0 Hl0).
  apply wp_bind, wp_alloc. intros newState Hnew.
  pose proof (copy_runs newState b0 pl0 ah0 Hl0 Hnew) as Hrun.
  apply wp_bind.
  eapply wp_mono; [apply appendHistory_runs; exact Hrun|].
  intros u1 h1 Hrun1. cbv beta in Hrun1 |- *.
  apply wp_bind.
  eapply wp_mono; [apply updatePot_runs; exact Hrun1|].
  intros u2 h2 Hrun2. cbv beta in Hrun2 |- *.
  apply wp_bind.
  eapply wp_mono; [apply progressStreet_runs; exact Hrun2|].
  intros u3 h3 Hrun3. cbv beta in Hrun3 |- *.
  apply wp_ret. exact Hrun3.
Qed.

End Phases.

End HeapProcessAction.

(** C10: [processAction] never writes to a cell its caller could
    reach.  Called on a reference that denotes the state [gs], it
    returns a reference to a newly allocated object; every cell of the
    heap before the call holds what it held, so the argument still
    denotes [gs], with its street, pot, board, players and action
    history unchanged; and the returned reference denotes the successor
    state, whose history is that of [gs] followed by exactly one record
    carrying the submitted type and amount and the street before the
    action. *)
Theorem processAction_leaves_input_intact (h : gmap Heap.loc Heap.object)
    (state : Heap.loc) (gs : GameState) (action : ActionType)
    (amount : option Q) :
  Heap.readState h state = Some gs ->
  exists newState h',
    Heap.processAction state action amount h = Some (newState, h')
    /\ (forall l o, h !! l = Some o -> h' !! l = Some o)
    /\ Heap.readState h' state = Some gs
    /\ h !! newState = None
    /\ Heap.readState h' newState = Some (processAction gs action amount)
    /\ gs_actionHistory (processAction gs action amount)
       = gs_actionHistory gs ++ [mkPlayerAction action amount (gs_street gs)].
Proof.
  intros Hstate.
  pose proof (processAction_runs h state gs Hstate action amount) as Hwp.
  unfold Heap.wp in Hwp.
  destruct (Heap.processAction state action amount h) as [[newState h']|];
    [|contradiction].
  destruct Hwp as [Hsub Hfresh Hcopy].
  exists newState, h'. split; [reflexivity|].
  split; [intros l o Hl; eapply lookup_weaken; eassumption|].
  split; [eapply readState_weaken; eassumption|].
  split; [exact Hfresh|].
  split; [exact Hcopy|].
  apply processAction_actionHistory.
Qed.

Lemma processAction_leaves_input_intact_witness :
  exists newState h',
    Heap.processAction 1%positive bet (Some 0.33) openingHeap = Some (newState, h')
    /\ (forall l o, openingHeap !! l = Some o -> h' !! l = Some o)
    /\ Heap.readState h' 1%positive = Some createInitialGameState
    /\ openingHeap !! newState = None
    /\ Heap.readState h' newState
       = Some (processAction createInitialGameState bet (Some 0.33))
    /\ gs_actionHistory (processAction createInitialGameState bet (Some 0.33))
       = gs_actionHistory createInitialGameState
           ++ [mkPlayerAction bet (Some 0.33) (gs_street createInitialGameState)].
Proof.
  apply (processAction_leaves_input_intact openingHeap 1%positive
           createInitialGameState bet (Some 0.33)).
  vm_compute. reflexivity.
Defined.

(** The copy shares the players array with its source (cell 3) and gets
    a board and a history of its own. *)
Lemma processAction_shares_players :
  exists newState h' st p b ah cp,
    Heap.processAction 1%positive check None openingHeap = Some (newState, h')
    /\ h' !! newState = Some (Heap.OGameState st p b 3%positive ah cp)
    /\ b <> 2%positive /\ ah <> 4%positive
    /\ h' !! 2%positive = openingHeap !! 2%positive
    /\ h' !! 4%positive = openingHeap !! 4%positive.
Proof.
  destruct (Heap.processAction 1%positive check None openingHeap)
    as [[newState h']|] eqn:E; vm_compute in E; [|discriminate E].
  injection E as <- <-.
  do 7 eexists. split; [reflexivity|].
  split; [vm_compute; reflexivity|].
  repeat split; discriminate.
Qed.

(** ** Further properties of the sources *)

(** *** Card strings *)

Lemma isRankChar_cases a :
  isRankChar a = true ->
  a ∈ list_ascii_of_string "23456789TJQKA".
Proof.
  unfold isRankChar. rewrite existsb_exists.
  intros (c & Hin & Heq). apply Ascii.eqb_eq in Heq. subst c.
  apply list_elem_of_In. exact Hin.
Qed.

Lemma isSuitChar_cases a :
  isSuitChar a = true -> a ∈ list_ascii_of_string "hdcs".
Proof.
  unfold isSuitChar. rewrite existsb_exists.
  intros (c & Hin & Heq). apply Ascii.eqb_eq in Heq. subst c.
  apply list_elem_of_In. exact Hin.
Qed.

(** X1: [cardToString] and [parseCard] are inverse to each other: every
    card is read back from its string, and every string made of a rank
    character and a suit character is printed back from its card. *)
Theorem card_string_round_trip (card : Card) (s : string) :
  parseCard (cardToString card) = card
  /\ isCardString (cardToString card) = true
  /\ (isCardString s = true -> cardToString (parseCard s) = s).
Proof.
  split; [destruct card as [[] []]; reflexivity|].
  split; [destruct card as [[] []]; reflexivity|].
  destruct s as [|r [|u [|? ?]]]; try discriminate. simpl isCardString.
  intros H. apply andb_true_iff in H as [Hr Hu].
  apply isRankChar_cases in Hr. apply isSuitChar_cases in Hu.
  simpl in Hr, Hu.
  repeat (apply elem_of_cons in Hr as [->|Hr]);
    try (apply elem_of_nil in Hr; contradiction);
    repeat (apply elem_of_cons in Hu as [->|Hu]);
    try (apply elem_of_nil in Hu; contradiction);
    reflexivity.
Qed.

Lemma card_string_round_trip_witness :
  cardToString (parseCard "Ts") = "Ts"%string.
Proof.
  apply (card_string_round_trip (mkCard RA suit_h) "Ts"). reflexivity.
Defined.

(** *** [Array.prototype.find] *)

Lemma find_Some {A} (p : A -> bool) (l : list A) (x : A) :
  Js.find p l = Some x <->
  exists pre post, l = pre ++ x :: post /\ p x = true
                   /\ forall y, y ∈ pre -> p y = false.
Proof.
  induction l as [|z l IH]; simpl.
  - split; [discriminate|]. intros (pre & post & H & _).
    destruct pre; discriminate H.
  - destruct (p z) eqn:E.
    + split.
      * intros [= ->]. exists [], l. repeat split; [exact E|].
        intros y Hy. apply elem_of_nil in Hy. contradiction.
      * intros (pre & post & H & Hx & Hpre). destruct pre as [|z' pre].
        -- injection H as -> _. reflexivity.
        -- injection H as <- _. rewrite Hpre in E by (apply elem_of_cons; auto).
           discriminate E.
    + rewrite IH. split.
      * intros (pre & post & -> & Hx & Hpre). exists (z :: pre), post.
        repeat split; [exact Hx|].
        intros y Hy. apply elem_of_cons in Hy as [->|Hy]; auto.
      * intros (pre & post & H & Hx & Hpre). destruct pre as [|z' pre].
        -- injection H as -> _. congruence.
        -- injection H as <- ->. exists pre, post. repeat split; [exact Hx|].
           intros y Hy. apply Hpre, elem_of_cons. auto.
Qed.

Lemma find_None {A} (p : A -> bool) (l : list A) :
  Js.find p l = None <-> forall y, y ∈ l -> p y = false.
Proof.
  induction l as [|z l IH]; simpl.
  - split; [|reflexivity]. intros _ y Hy. apply elem_of_nil in Hy. contradiction.
  - destruct (p z) eqn:E.
    + split; [discriminate|]. intros H.
      rewrite H in E by (apply elem_of_cons; auto). discriminate E.
    + rewrite IH. split.
      * intros H y Hy. apply elem_of_cons in Hy as [->|Hy]; auto.
      * intros H y Hy. apply H, elem_of_cons. auto.
Qed.

(** *** [findGTOSolution] *)

Lemma matches_true street board handClass s :
  matches street board handClass s = true <->
  streetName (sol_street s) = street
  /\ length (sol_board s) = length board
  /\ (truthyString handClass = true -> sol_handClass s = handClass).
Proof.
  unfold matches. rewrite !andb_true_iff, orb_true_iff, negb_true_iff.
  rewrite String.eqb_eq, Nat.eqb_eq. split.
  - intros [[Hst Hlen] Hhc]. repeat split; try assumption.
    intros Ht. destruct Hhc as [Hhc|Hhc]; [congruence|].
    destruct (sol_handClass s) as [a|], handClass as [b|];
      simpl in Hhc; try discriminate.
    apply String.eqb_eq in Hhc. congruence.
  - intros (Hst & Hlen & Hhc). repeat split; try assumption.
    destruct (truthyString handClass) eqn:Ht; [right | left; reflexivity].
    rewrite (Hhc eq_refl). destruct handClass as [b|]; simpl;
      [apply String.eqb_refl | reflexivity].
Qed.

(** X4: a solution returned by [findGTOSolution] is a stored one, on the
    requested street, with a board of as many cards as the requested one
    and, when a non-empty hand class is requested, of that hand class;
    it is the first stored solution of which this holds.  The cards of
    the stored board are not compared with the requested ones. *)
Theorem findGTOSolution_found (street : string) (board : list string)
    (handClass : option string) (s : GTOSolution) :
  findGTOSolution street board handClass = Some s ->
  s ∈ gtoSolutions
  /\ streetName (sol_street s) = street
  /\ length (sol_board s) = length board
  /\ (truthyString handClass = true -> sol_handClass s = handClass)
  /\ exists pre post,
       gtoSolutions = pre ++ s :: post
       /\ forall s', s' ∈ pre -> matches street board handClass s' = false.
Proof.
  unfold findGTOSolution. intros H.
  apply find_Some in H as (pre & post & Hl & Hs & Hpre).
  apply matches_true in Hs as (Hst & Hlen & Hhc).
  split; [rewrite Hl; apply elem_of_app; right; apply elem_of_cons; auto|].
  repeat split; try assumption. exists pre, post. auto.
Qed.

Lemma findGTOSolution_found_witness :
  exists s,
    findGTOSolution "turn" ["2c"; "2d"; "2h"; "2s"] None = Some s
    /\ sol_id s = "turn-btn-vs-co-ahigh-toppair-afterbet"
    /\ length (sol_board s) = length ["2c"; "2d"; "2h"; "2s"]
    /\ sol_board s <> ["2c"; "2d"; "2h"; "2s"].
Proof.
  destruct (findGTOSolution "turn" ["2c"; "2d"; "2h"; "2s"] None) as [s|] eqn:E;
    [|vm_compute in E; discriminate E].
  exists s.
  destruct (findGTOSolution_found "turn" ["2c"; "2d"; "2h"; "2s"] None s E)
    as (_ & _ & Hlen & _).
  split; [reflexivity|]. split; [|split; [exact Hlen|]];
    vm_compute in E; injection E as <-; [reflexivity | discriminate].
Defined.

(** X5: [findGTOSolution] returns [null] exactly when no stored solution
    is on the requested street with a board of the requested length and,
    if a non-empty hand class is requested, of that hand class.  In
    particular nothing is found preflop, nor for a board whose length
    does not go with the street. *)
Theorem findGTOSolution_null (street : string) (board : list string)
    (handClass : option string) :
  (findGTOSolution street board handClass = None
   <-> forall s, s ∈ gtoSolutions ->
         ~ (streetName (sol_street s) = street
            /\ length (sol_board s) = length board
            /\ (truthyString handClass = true -> sol_handClass s = handClass)))
  /\ findGTOSolution "preflop" board handClass = None
  /\ (length board <> 3%nat -> findGTOSolution "flop" board handClass = None)
  /\ (length board <> 4%nat -> findGTOSolution "turn" board handClass = None)
  /\ (length board <> 5%nat -> findGTOSolution "river" board handClass = None).
Proof.
  assert (Hnone : forall st, findGTOSolution st board handClass = None
                  <-> forall s, s ∈ gtoSolutions ->
                        ~ (streetName (sol_street s) = st
                           /\ length (sol_board s) = length board
                           /\ (truthyString handClass = true ->
                               sol_handClass s = handClass))).
  { intros st. unfold findGTOSolution. rewrite find_None.
    split; intros H s Hs.
    - rewrite <- matches_true. rewrite (H s Hs). discriminate.
    - destruct (matches st board handClass s) eqn:E; [|reflexivity].
      apply matches_true in E. destruct (H s Hs E). }
  assert (Hlen : forall st n, length board <> n ->
            (forall s, s ∈ gtoSolutions -> streetName (sol_street s) = st ->
                       length (sol_board s) = n) ->
            findGTOSolution st board handClass = None).
  { intros st n Hn Hall. apply Hnone. intros s Hs (Hst & Hl & _).
    apply Hn. rewrite <- Hl. apply Hall; assumption. }
  split; [apply Hnone|]. split.
  - apply Hnone. intros s Hs (Hst & _).
    unfold gtoSolutions in Hs.
    repeat (apply elem_of_cons in Hs as [->|Hs]; [discriminate Hst|]).
    apply elem_of_nil in Hs. contradiction.
  - repeat split; intros Hn; apply (Hlen _ _ Hn); intros s Hs Hst;
      unfold gtoSolutions in Hs;
      repeat (apply elem_of_cons in Hs as [->|Hs];
              [first [reflexivity | discriminate Hst]|]);
      apply elem_of_nil in Hs; contradiction.
Qed.

Lemma findGTOSolution_null_witness :
  findGTOSolution "flop" ["Ah"; "Kd"] (Some "top-pair") = None.
Proof.
  destruct (findGTOSolution_null "flop" ["Ah"; "Kd"] (Some "top-pair"))
    as (_ & _ & H & _).
  apply H. discriminate.
Defined.

(** X6: the stored scenario in which the hero faces a bet on the A-high
    flop is never returned, whatever is asked: it has the street, the
    board length and the hand class of the first stored scenario, which
    is found before it. *)
Theorem facing_bet_scenario_is_shadowed (street : string) (board : list string)
    (handClass : option string) (s : GTOSolution) :
  findGTOSolution street board handClass = Some s ->
  sol_id s <> "flop-btn-vs-co-ahigh-toppair-facingbet".
Proof.
  intros H Hid.
  apply findGTOSolution_found in H as (Hin & Hst & Hlen & Hhc & pre & post & Hl & Hpre).
  assert (Hm : matches street board handClass s = true)
    by (apply matches_true; auto).
  unfold gtoSolutions in Hl.
  destruct pre as [|s1 pre]; [injection Hl as <- _; discriminate Hid|].
  injection Hl as <- Hl.
  assert (H1 : matches street board handClass
                 (default tiedSolution (head gtoSolutions)) = false)
    by (apply Hpre, elem_of_cons; left; reflexivity).
  assert (Hs : s = default tiedSolution (gtoSolutions !! 3%nat)).
  { clear -Hin Hid. unfold gtoSolutions in Hin.
    repeat (apply elem_of_cons in Hin as [->|Hin];
            [first [reflexivity | discriminate Hid]|]).
    apply elem_of_nil in Hin. contradiction. }
  subst s. unfold matches in Hm, H1. simpl in Hm, H1.
  rewrite H1 in Hm. discriminate Hm.
Qed.

Lemma facing_bet_scenario_is_shadowed_witness :
  sol_id (default tiedSolution (head gtoSolutions))
  <> "flop-btn-vs-co-ahigh-toppair-facingbet".
Proof.
  apply (facing_bet_scenario_is_shadowed "flop" ["Ah"; "Kd"; "7s"]
           (Some "top-pair")).
  reflexivity.
Defined.

(** *** Stored solutions under [getBestAction] *)

(** X7: whatever [findGTOSolution] returns can be handed to
    [getBestAction] and [isBlunder]: its list of actions is not empty,
    so neither throws; the best action is one of the offered actions and
    is not a blunder; the frequencies of the offered actions lie in
    [[0, 1]] and add up to 1; and the stored board has the number of
    cards of the stored street. *)
Theorem found_solution_is_well_formed (street : string) (board : list string)
    (handClass : option string) (s : GTOSolution) :
  findGTOSolution street board handClass = Some s ->
  (exists best, getBestAction s = Some best
                /\ best ∈ sol_actions s
                /\ isBlunder s best = Some false)
  /\ (forall a, a ∈ sol_actions s -> 0 <= ga_frequency a <= 1)
  /\ sumFrequencies s == 1
  /\ length (sol_board s) = cardsOnStreet (sol_street s).
Proof.
  intros H. apply findGTOSolution_found in H as (Hin & _).
  unfold gtoSolutions in Hin.
  repeat (apply elem_of_cons in Hin as [->|Hin];
    [ split; [eexists; split; [reflexivity|]; split;
               [repeat (first [apply list_elem_of_here | apply list_elem_of_further])
               | reflexivity]|];
      split; [intros a Ha; simpl in Ha;
              repeat (apply elem_of_cons in Ha as [->|Ha];
                      [split; vm_compute; discriminate|]);
              apply elem_of_nil in Ha; contradiction|];
      split; reflexivity |]).
  apply elem_of_nil in Hin. contradiction.
Qed.

Lemma found_solution_is_well_formed_witness :
  exists s,
    findGTOSolution "river" ["Ah"; "Kd"; "7s"; "3c"; "9h"] None = Some s
    /\ sumFrequencies s == 1
    /\ exists best, getBestAction s = Some best /\ ga_action best = check.
Proof.
  destruct (findGTOSolution "river" ["Ah"; "Kd"; "7s"; "3c"; "9h"] None)
    as [s|] eqn:E; [|vm_compute in E; discriminate E].
  exists s.
  destruct (found_solution_is_well_formed _ _ _ s E)
    as ((best & Hbest & _) & _ & Hsum & _).
  split; [reflexivity|]. split; [exact Hsum|].
  exists best. split; [exact Hbest|].
  vm_compute in E. injection E as <-. vm_compute in Hbest.
  injection Hbest as <-. reflexivity.
Defined.

(** *** [getNextStreet] *)

(** X8: [getNextStreet] moves one place up the order preflop, flop,
    turn, river and stays on the river: it never yields preflop, the
    river is its only fixed point, and three steps reach the river from
    any street. *)
Theorem getNextStreet_advances (current : Street) :
  Js.indexOf (getNextStreet current) streetOrder
    = Z.min (Js.indexOf current streetOrder + 1) 3
  /\ getNextStreet current <> preflop
  /\ (getNextStreet current = current <-> current = river)
  /\ getNextStreet (getNextStreet (getNextStreet current)) = river.
Proof.
  destruct current; repeat split; try reflexivity; try discriminate.
Qed.

(** *** The hook along a hand *)

Lemma handAfter_complete hk submitted :
  isHandComplete hk = true -> handAfter hk submitted = hk.
Proof.
  intros Hc. unfold handAfter.
  induction submitted as [|[action amount] rest IH]; [reflexivity|].
  simpl. unfold makeAction at 2. rewrite Hc. exact IH.
Qed.

Lemma handAfter_cons hk action amount rest :
  handAfter hk ((action, amount) :: rest)
  = handAfter (makeAction hk action amount) rest.
Proof. reflexivity. Qed.

Lemma play_last hk submitted :
  last (play hk submitted) = Some (handAfter hk submitted).
Proof.
  revert hk. induction submitted as [|[action amount] rest IH]; intros hk;
    [reflexivity|].
  rewrite handAfter_cons, <- IH. cbn [play].
  pose proof (play_head (makeAction hk action amount) rest) as Hhd.
  destruct (play (makeAction hk action amount) rest); [discriminate Hhd|].
  reflexivity.
Qed.

Lemma makeAction_decisions hk action amount :
  isHandComplete hk = false ->
  exists d,
    decisions (makeAction hk action amount) = decisions hk ++ [d]
    /\ recordOf d = mkPlayerAction action amount (gs_street (gameState hk))
    /\ d_gtoFrequency d = an_gtoFrequency (analyzeDecision (gameState hk) action amount)
    /\ d_isBlunder d = an_isBlunder (analyzeDecision (gameState hk) action amount).
Proof.
  intros Hc. unfold makeAction. rewrite Hc. cbn [decisions].
  eexists. split; [reflexivity|]. repeat split.
Qed.

(** X9: the decision log mirrors the action history.  If the decisions
    recorded so far are, in order, the records of the game state's
    history, the same holds after any further clicks; from the opening
    state it therefore holds throughout, and the hook state shown is the
    last of the states passed through. *)
Theorem decisions_mirror_history (hk : Hook)
    (submitted : list (ActionType * option Q)) :
  (map recordOf (decisions hk) = gs_actionHistory (gameState hk) ->
   map recordOf (decisions (handAfter hk submitted))
   = gs_actionHistory (gameState (handAfter hk submitted)))
  /\ map recordOf (decisions (handAfter usePokerGame submitted))
     = gs_actionHistory (gameState (handAfter usePokerGame submitted))
  /\ last (play hk submitted) = Some (handAfter hk submitted).
Proof.
  assert (Hgen : forall hk,
    map recordOf (decisions hk) = gs_actionHistory (gameState hk) ->
    map recordOf (decisions (handAfter hk submitted))
    = gs_actionHistory (gameState (handAfter hk submitted))).
  { clear hk. induction submitted as [|[action amount] rest IH]; intros hk Hinv;
      [exact Hinv|].
    rewrite handAfter_cons. apply IH.
    destruct (isHandComplete hk) eqn:Hc.
    - unfold makeAction. rewrite Hc. exact Hinv.
    - destruct (makeAction_decisions hk action amount Hc) as (d & Hd & Hrec & _).
      rewrite Hd, map_app, Hinv, makeAction_gameState by exact Hc.
      rewrite processAction_actionHistory. simpl. rewrite Hrec. reflexivity. }
  split; [apply Hgen|]. split; [apply Hgen; reflexivity | apply play_last].
Qed.

Lemma decisions_mirror_history_witness :
  map recordOf (decisions (handAfter usePokerGame [(bet, Some 0.5); (fold, None)]))
  = gs_actionHistory
      (gameState (handAfter usePokerGame [(bet, Some 0.5); (fold, None)])).
Proof.
  destruct (decisions_mirror_history usePokerGame
              [(bet, Some 0.5); (fold, None)]) as (H & _).
  apply H. reflexivity.
Defined.

(** A hand from the opening state ends in one of four ways: nothing was
    clicked, the first click was a fold, only one click was made, or two
    clicks were taken and the rest ignored. *)
Lemma hand_shape submitted :
  (submitted = [] /\ handAfter usePokerGame submitted = usePokerGame)
  \/ (exists m1 rest, submitted = (fold, m1) :: rest
        /\ handAfter usePokerGame submitted = makeAction usePokerGame fold m1)
  \/ (exists a1 m1, submitted = [(a1, m1)] /\ a1 <> fold
        /\ handAfter usePokerGame submitted = makeAction usePokerGame a1 m1)
  \/ (exists a1 m1 a2 m2 rest, submitted = (a1, m1) :: (a2, m2) :: rest
        /\ a1 <> fold
        /\ handAfter usePokerGame submitted
           = makeAction (makeAction usePokerGame a1 m1) a2 m2).
Proof.
  destruct submitted as [|[a1 m1] rest]; [left; auto|]. right.
  destruct (decide (a1 = fold)) as [->|Hnf].
  - left. exists m1, rest. split; [reflexivity|].
    rewrite handAfter_cons. apply handAfter_complete. reflexivity.
  - right. destruct rest as [|[a2 m2] rest]; [left; exists a1, m1; auto|].
    right. exists a1, m1, a2, m2, rest. repeat split; [exact Hnf|].
    rewrite !handAfter_cons. apply handAfter_complete.
    destruct a1; try contradiction; destruct a2; reflexivity.
Qed.

(** X10: a hand started by [createInitialGameState] takes at most two
    decisions, the first on the flop and the second on the turn: it is
    complete after a fold or as soon as the river card is dealt, so no
    decision is ever taken on the river. *)
Theorem hand_has_at_most_two_decisions (submitted : list (ActionType * option Q)) :
  let hk := handAfter usePokerGame submitted in
  (length (decisions hk) <= 2)%nat
  /\ map d_street (decisions hk) `prefix_of` [flop; turn]
  /\ (gs_street (gameState hk) = river -> isHandComplete hk = true)
  /\ (isHandComplete hk = true
      <-> gs_street (gameState hk) = river
          \/ exists d, last (decisions hk) = Some d /\ d_action d = fold).
Proof.
  cbv zeta.
  destruct (hand_shape submitted)
    as [(_ & ->) | [(m1 & rest & _ & ->) | [(a1 & m1 & _ & Hnf & ->)
       | (a1 & m1 & a2 & m2 & rest & _ & Hnf & ->)]]].
  - repeat split; try (simpl; lia); try discriminate.
    + exists [flop; turn]. reflexivity.
    + intros [H|(d & H & _)]; discriminate H.
  - repeat split; try (simpl; lia).
    + exists [turn]. reflexivity.
    + intros _. right. eexists. split; reflexivity.
  - destruct a1; try contradiction; repeat split; try (simpl; lia);
      try discriminate; try (exists [turn]; reflexivity);
      intros [H|(d & [= <-] & H)]; discriminate H.
  - destruct a1; try contradiction; destruct a2; repeat split;
      try (simpl; lia); try discriminate; try (exists []; reflexivity);
      try (intros _; left; reflexivity);
      try (intros _; right; eexists; split; reflexivity).
Qed.

(** *** [analyzeDecision] *)

(** X11: the placeholder analysis looks at the action type only, never at
    the game state or the amount; it always names the bet as best action,
    reports a frequency in [[0, 1]], and classes exactly the fold as a
    blunder. *)
Theorem analyzeDecision_reads_action_only (state state' : GameState)
    (action : ActionType) (amount amount' : option Q) :
  analyzeDecision state action amount = analyzeDecision state' action amount'
  /\ an_bestAction (analyzeDecision state action amount) = bet
  /\ 0 <= an_gtoFrequency (analyzeDecision state action amount) <= 1
  /\ (an_isBlunder (analyzeDecision state action amount) = true <-> action = fold).
Proof.
  split; [reflexivity|]. split; [reflexivity|].
  destruct action; (split; [split; vm_compute; discriminate|]);
    split; try reflexivity; discriminate.
Qed.

(** *** Scores of the hands that can be played *)

(** X12: every hand played from the opening state that takes at least
    one decision scores between 40 and 88.  The top score goes to
    checking twice; choosing the action the analysis names as best, the
    bet, at both decisions scores 82; folding at once scores 40. *)
Theorem played_hand_scores (submitted : list (ActionType * option Q))
    (m1 m2 : option Q) :
  (submitted <> [] ->
   40 <= calculateScore (decisions (handAfter usePokerGame submitted)) <= 88)
  /\ calculateScore (decisions (handAfter usePokerGame [(check, m1); (check, m2)]))
     == 88
  /\ calculateScore (decisions (handAfter usePokerGame [(bet, m1); (bet, m2)]))
     == 82
  /\ calculateScore (decisions (handAfter usePokerGame [(fold, m1)])) == 40.
Proof.
  split; [|repeat split].
  intros Hne.
  destruct (hand_shape submitted)
    as [(-> & _) | [(n1 & rest & _ & ->) | [(a1 & n1 & _ & Hnf & ->)
       | (a1 & n1 & a2 & n2 & rest & _ & Hnf & ->)]]].
  - contradiction.
  - split; vm_compute; discriminate.
  - destruct a1; try contradiction; split; vm_compute; discriminate.
  - destruct a1; try contradiction; destruct a2; split; vm_compute; discriminate.
Qed.

Lemma played_hand_scores_witness :
  40 <= calculateScore (decisions (handAfter usePokerGame [(raise, Some 0.5)])) <= 88.
Proof.
  destruct (played_hand_scores [(raise, Some 0.5)] None None) as (H & _).
  apply H. discriminate.
Defined.

(** *** [calculateScore] on arbitrary decision lists *)

Lemma Math_max0_proper x y : x == y -> Js.Math_max 0 x == Js.Math_max 0 y.
Proof.
  intros E. unfold Js.Math_max.
  destruct (Qle_bool 0 x) eqn:Ex; destruct (Qle_bool 0 y) eqn:Ey;
    try reflexivity; try exact E.
  - apply Qle_bool_iff in Ex. rewrite E in Ex. apply Qle_bool_iff in Ex. congruence.
  - apply Qle_bool_iff in Ey. rewrite <- E in Ey. apply Qle_bool_iff in Ey. congruence.
Qed.

Lemma total_all_blunders ds :
  (forall d, d ∈ ds -> d_isBlunder d = true) ->
  Spec.total ds == 3 * inject_Z (Z.of_nat (length ds)).
Proof.
  unfold Spec.total. induction ds as [|d ds IH]; intros H.
  - simpl. ring.
  - cbn [map fold_right length]. rewrite IH
      by (intros d' Hd; apply H, elem_of_cons; auto).
    unfold Spec.loss. rewrite (H d) by (apply elem_of_cons; auto).
    rewrite Nat2Z.inj_succ. unfold Z.succ. rewrite inject_Z_plus.
    change (inject_Z 1) with 1. ring.
Qed.

Lemma total_all_certain ds :
  (forall d, d ∈ ds -> d_isBlunder d = false /\ d_gtoFrequency d == 1) ->
  Spec.total ds == 0.
Proof.
  unfold Spec.total. induction ds as [|d ds IH]; intros H.
  - reflexivity.
  - cbn [map fold_right]. rewrite IH
      by (intros d' Hd; apply H, elem_of_cons; auto).
    destruct (H d) as [Hb Hf]; [apply elem_of_cons; auto|].
    unfold Spec.loss. rewrite Hb, Hf. ring.
Qed.

Lemma length_positive {A} (x : A) (l : list A) :
  0 < inject_Z (Z.of_nat (length (x :: l))).
Proof. change 0 with (inject_Z 0). rewrite <- Zlt_Qlt. simpl length. lia. Qed.

(** X15: a hand in which every decision is a blunder scores 40, however
    many decisions it has, and a hand of non-blunders that GTO plays all
    the time scores 100. *)
Theorem calculateScore_extremes (ds : list Decision) :
  ds <> [] ->
  ((forall d, d ∈ ds -> d_isBlunder d = true) -> calculateScore ds == 40)
  /\ ((forall d, d ∈ ds -> d_isBlunder d = false /\ d_gtoFrequency d == 1) ->
      calculateScore ds == 100).
Proof.
  destruct ds as [|d ds]; [contradiction|]. intros _.
  pose proof (length_positive d ds) as Hn.
  split; intros H; rewrite calculateScore_nonempty.
  - assert (E : 100 - Spec.average (d :: ds) * 20 == 40).
    { unfold Spec.average. rewrite (total_all_blunders _ H). field. lra. }
    rewrite (Math_max0_proper _ _ E). reflexivity.
  - assert (E : 100 - Spec.average (d :: ds) * 20 == 100).
    { unfold Spec.average. rewrite (total_all_certain _ H). field. lra. }
    rewrite (Math_max0_proper _ _ E). reflexivity.
Qed.

Lemma calculateScore_extremes_witness :
  calculateScore [blunderFold; blunderFold; blunderFold] == 40.
Proof.
  destruct (calculateScore_extremes [blunderFold; blunderFold; blunderFold])
    as (H & _); [discriminate|].
  apply H. intros d Hd.
  repeat (apply elem_of_cons in Hd as [->|Hd]; [reflexivity|]).
  apply elem_of_nil in Hd. contradiction.
Defined.

(** *** Tiers of the review *)

Local Ltac split_tiers :=
  repeat match goal with
         | |- context [Qle_bool ?a ?b] =>
             let E := fresh "E" in destruct (Qle_bool a b) eqn:E
         end.

Local Ltac thresholds :=
  repeat match goal with
         | H : Qle_bool _ _ = true |- _ => apply Qle_bool_iff in H
         | H : Qle_bool ?a ?b = false |- _ =>
             assert (b < a)
               by (apply Qnot_le_lt; intros Hle; apply Qle_bool_iff in Hle;
                   congruence);
             clear H
         end.

(** X16: the stars and the feedback sentence of the review always go
    together, two scores getting the same stars exactly when they get the
    same sentence; and the colour fits them: a green score has at least
    two stars, a red one at most one. *)
Theorem review_tiers_agree (score score' : Q) :
  (getScoreEmoji score = getScoreEmoji score'
   <-> getScoreFeedback score = getScoreFeedback score')
  /\ (getScoreColor score = "#4caf50"%string ->
      getScoreEmoji score = "⭐⭐⭐"%string \/ getScoreEmoji score = "⭐⭐"%string)
  /\ (getScoreColor score = "#f44336"%string ->
      getScoreEmoji score = "⭐"%string \/ getScoreEmoji score = "💔"%string).
Proof.
  split; [|split].
  - unfold getScoreEmoji, getScoreFeedback, geb. split_tiers;
      split; intros H; first [reflexivity | discriminate H].
  - unfold getScoreColor, getScoreEmoji, geb. split_tiers; intros H;
      try discriminate H; auto; thresholds; lra.
  - unfold getScoreColor, getScoreEmoji, geb. split_tiers; intros H;
      try discriminate H; auto; thresholds; lra.
Qed.

Lemma review_tiers_agree_witness :
  getScoreEmoji 87 = "⭐⭐"%string \/ getScoreEmoji 87 = "⭐"%string
  \/ getScoreEmoji 87 = "⭐⭐⭐"%string.
Proof.
  destruct (review_tiers_agree 87 87) as (_ & H & _).
  destruct H as [H|H]; [reflexivity | auto | auto].
Defined.

(** *** Decision cards and counters *)

(** X17: every decision card renders exactly one of its three feedback
    paragraphs, and the paragraph goes with the border colour: the
    blunder warning with red, the note on good decisions with green, the
    note on marginal ones with orange.  The two counters under the cards
    add up to the number of decisions. *)
Theorem decision_card_feedback (d : Decision) (ds : list Decision) :
  (exists f, feedbackShown d = [f]
     /\ (f = BlunderWarning <-> borderColor d = "#f44336"%string)
     /\ (f = GoodNote <-> borderColor d = "#4caf50"%string)
     /\ (f = MarginalNote <-> borderColor d = "#ff9800"%string))
  /\ (blunderCount ds + goodCount ds = length ds)%nat.
Proof.
  split.
  - unfold feedbackShown, borderColor, isGoodDecision, isMarginal, Js.gtb.
    destruct (d_isBlunder d); simpl;
      [|destruct (Qle_bool (d_gtoFrequency d) 0.1); simpl];
      eexists; (split; [reflexivity|]); repeat split;
      intros H; first [reflexivity | discriminate H].
  - unfold blunderCount, goodCount.
    induction ds as [|d' ds IH]; [reflexivity|].
    simpl. destruct (d_isBlunder d'); simpl; lia.
Qed.

(** *** Buttons *)

Lemma betSizes_positive size : size ∈ betSizes -> 0 < snd size <= 1.
Proof.
  unfold betSizes. intros H.
  repeat (apply elem_of_cons in H as [->|H]; [split; vm_compute; congruence|]).
  apply elem_of_nil in H. contradiction.
Qed.

(** X18: the buttons only submit actions that are legal for the betting
    state their flags describe: a check or a bet when the hero can check,
    a fold, a raise or (if there is something to call) a call when not;
    a call carries the call amount, and a bet or raise carries one of the
    four sizes, each in (0, 1].  With a call amount that is positive when
    present, no button lowers the pot of a state whose pot is not
    negative. *)
Theorem ActionButtons_submit_legal_actions (canCheck canCall : bool)
    (callAmount : option Q) (state : GameState) (s : ActionType * option Q) :
  s ∈ ActionButtons canCheck canCall callAmount ->
  (if canCheck then fst s = check \/ fst s = bet
   else fst s = fold \/ fst s = raise \/ (fst s = call /\ canCall = true))
  /\ (fst s = call -> snd s = callAmount)
  /\ (fst s = bet \/ fst s = raise -> exists x, snd s = Some x /\ 0 < x <= 1)
  /\ (amountInRange callAmount -> 0 <= gs_pot state ->
      gs_pot state <= gs_pot (processAction state (fst s) (snd s))).
Proof.
  unfold ActionButtons. intros H.
  assert (Hcases :
    (canCheck = false /\ s = (fold, None))
    \/ (canCheck = true /\ s = (check, None))
    \/ (canCheck = false /\ canCall = true /\ s = (call, callAmount))
    \/ (exists size, size ∈ betSizes
          /\ s = (if canCheck then bet else raise, Some (snd size)))).
  { apply elem_of_app in H as [H|H]; [|apply elem_of_app in H as [H|H]].
    - destruct canCheck; simpl in H; [apply elem_of_nil in H; contradiction|].
      apply list_elem_of_singleton in H. auto.
    - destruct canCheck; [apply list_elem_of_singleton in H; auto|].
      destruct canCall; [|apply elem_of_nil in H; contradiction].
      apply list_elem_of_singleton in H. auto 6.
    - apply list_elem_of_fmap in H as (size & -> & Hsize).
      right. right. right. exists size. auto. }
  assert (Hrange : amountInRange callAmount -> amountInRange (snd s)).
  { intros Hc. destruct Hcases as [(_ & ->)|[(_ & ->)|[(_ & _ & ->)|(size & Hs & ->)]]];
      simpl; try exact Hc; try (intros a Ha; discriminate Ha).
    intros a [= <-]. apply betSizes_positive, Hs. }
  split; [|split; [|split]].
  - destruct Hcases as [(-> & ->)|[(-> & ->)|[(-> & -> & ->)|(size & Hs & ->)]]];
      simpl; auto. destruct canCheck; simpl; auto.
  - destruct Hcases as [(_ & ->)|[(_ & ->)|[(_ & _ & ->)|(size & Hs & ->)]]];
      simpl; try discriminate; auto. destruct canCheck; discriminate.
  - destruct Hcases as [(_ & ->)|[(_ & ->)|[(_ & _ & ->)|(size & Hs & ->)]]];
      simpl; try (intros [H'|H']; discriminate H').
    intros _. exists (snd size). split; [reflexivity|].
    apply betSizes_positive, Hs.
  - intros Hc Hpot. apply processAction_pot_bounds; auto.
Qed.

Lemma ActionButtons_submit_legal_actions_witness :
  fst (raise, Some 0.75) = fold \/ fst (raise, Some 0.75) = raise
  \/ (fst (raise, Some 0.75) = call /\ true = true).
Proof.
  apply (ActionButtons_submit_legal_actions false true (Some 2.5)
           createInitialGameState (raise, Some 0.75)).
  unfold ActionButtons. simpl.
  repeat first [apply list_elem_of_here | apply list_elem_of_further].
Defined.

(** *** Players along a hand *)

Lemma handAfter_players hk submitted :
  gs_players (gameState (handAfter hk submitted)) = gs_players (gameState hk)
  /\ gs_currentPlayer (gameState (handAfter hk submitted))
     = gs_currentPlayer (gameState hk).
Proof.
  revert hk. induction submitted as [|[action amount] rest IH]; intros hk;
    [split; reflexivity|].
  rewrite handAfter_cons. destruct (IH (makeAction hk action amount)) as [-> ->].
  unfold makeAction. destruct (isHandComplete hk); cbn [gameState];
    [split; reflexivity|].
  rewrite processAction_players, processAction_currentPlayer. split; reflexivity.
Qed.

(** X19: the hero and the villain that [PokerTable] picks are two
    different players of the list, the hero flagged as hero and the
    villain not.  No click changes the list of players or whose turn it
    is, so from the opening state the table shows the hero on the button
    with 97.5bb and the villain in the cut-off with 100bb throughout the
    hand, whatever has been bet. *)
Theorem table_seats (players : list Player) (hero villain : Player)
    (hk : Hook) (submitted : list (ActionType * option Q)) :
  (heroOf players = Some hero -> villainOf players = Some villain ->
   hero ∈ players /\ villain ∈ players /\ hero <> villain
   /\ pl_isHero hero = true /\ pl_isHero villain = false)
  /\ gs_players (gameState (handAfter hk submitted)) = gs_players (gameState hk)
  /\ gs_currentPlayer (gameState (handAfter hk submitted))
     = gs_currentPlayer (gameState hk)
  /\ (exists h v,
        heroOf (gs_players (gameState (handAfter usePokerGame submitted))) = Some h
        /\ villainOf (gs_players (gameState (handAfter usePokerGame submitted)))
           = Some v
        /\ pl_position h = BTN /\ pl_stack h == 97.5
        /\ pl_position v = CO /\ pl_stack v == 100).
Proof.
  split; [|split; [apply handAfter_players|split; [apply handAfter_players|]]].
  - unfold heroOf, villainOf. intros Hh Hv.
    apply find_Some in Hh as (pre & post & Hl & Hhero & _).
    apply find_Some in Hv as (pre' & post' & Hl' & Hvil & _).
    apply negb_true_iff in Hvil.
    split; [rewrite Hl; apply elem_of_app; right; apply elem_of_cons; auto|].
    split; [rewrite Hl'; apply elem_of_app; right; apply elem_of_cons; auto|].
    split; [intros ->; congruence | auto].
  - destruct (handAfter_players usePokerGame submitted) as [-> _].
    do 2 eexists. repeat split.
Qed.

Lemma table_seats_witness :
  exists hero villain,
    heroOf (gs_players createInitialGameState) = Some hero
    /\ villainOf (gs_players createInitialGameState) = Some villain
    /\ hero <> villain.
Proof.
  destruct (heroOf (gs_players createInitialGameState)) as [hero|] eqn:Eh;
    [|discriminate Eh].
  destruct (villainOf (gs_players createInitialGameState)) as [villain|] eqn:Ev;
    [|discriminate Ev].
  exists hero, villain. split; [reflexivity|]. split; [reflexivity|].
  destruct (table_seats (gs_players createInitialGameState) hero villain
              usePokerGame []) as (H & _).
  apply H; assumption.
Defined.

(** *** Successive calls on the heap *)

(** X20: two calls of [processAction] in a row, the second on the state
    the first returned, leave three states on the heap: the cell the
    caller started from still denotes the starting state, the first
    result still denotes its successor after the second call, and the
    second result denotes the successor of that; the three references
    are different. *)
Theorem processAction_twice_keeps_all_states (h : gmap Heap.loc Heap.object)
    (state : Heap.loc) (gs : GameState) (a1 a2 : ActionType)
    (m1 m2 : option Q) :
  Heap.readState h state = Some gs ->
  exists s1 h1 s2 h2,
    Heap.processAction state a1 m1 h = Some (s1, h1)
    /\ Heap.processAction s1 a2 m2 h1 = Some (s2, h2)
    /\ Heap.readState h2 state = Some gs
    /\ Heap.readState h2 s1 = Some (processAction gs a1 m1)
    /\ Heap.readState h2 s2
       = Some (processAction (processAction gs a1 m1) a2 m2)
    /\ state <> s1 /\ state <> s2 /\ s1 <> s2.
Proof.
  intros Hstate.
  pose proof (processAction_runs h state gs Hstate a1 m1) as Hwp1.
  unfold Heap.wp in Hwp1.
  destruct (Heap.processAction state a1 m1 h) as [[s1 h1]|] eqn:E1;
    [|contradiction].
  destruct Hwp1 as [Hsub1 Hfresh1 Hcopy1].
  pose proof (processAction_runs h1 s1 _ Hcopy1 a2 m2) as Hwp2.
  unfold Heap.wp in Hwp2.
  destruct (Heap.processAction s1 a2 m2 h1) as [[s2 h2]|] eqn:E2;
    [|contradiction].
  destruct Hwp2 as [Hsub2 Hfresh2 Hcopy2].
  exists s1, h1, s2, h2. split; [reflexivity|]. split; [exact E2|].
  assert (Hst1 : Heap.readState h1 state = Some gs)
    by (eapply readState_weaken; eassumption).
  split; [eapply readState_weaken; eassumption|].
  split; [eapply readState_weaken; eassumption|].
  split; [exact Hcopy2|].
  unfold Heap.readState in Hstate, Hst1, Hcopy1.
  repeat split; intros ->.
  - rewrite Hfresh1 in Hstate. discriminate Hstate.
  - rewrite Hfresh2 in Hst1. discriminate Hst1.
  - rewrite Hfresh2 in Hcopy1. discriminate Hcopy1.
Qed.

Lemma processAction_twice_keeps_all_states_witness :
  exists s1 h1 s2 h2,
    Heap.processAction 1%positive check None openingHeap = Some (s1, h1)
    /\ Heap.processAction s1 bet (Some 0.5) h1 = Some (s2, h2)
    /\ Heap.readState h2 1%positive = Some createInitialGameState
    /\ Heap.readState h2 s1 = Some (processAction createInitialGameState check None)
    /\ Heap.readState h2 s2
       = Some (processAction (processAction createInitialGameState check None)
                 bet (Some 0.5))
    /\ 1%positive <> s1 /\ 1%positive <> s2 /\ s1 <> s2.
Proof.
  apply (processAction_twice_keeps_all_states openingHeap 1%positive
           createInitialGameState check bet None (Some 0.5)).
  vm_compute. reflexivity.
Defined.

(** *** Best action and the order of the list *)

Lemma getBestAction_max solution best :
  getBestAction solution = Some best ->
  best ∈ sol_actions solution
  /\ forall a, a ∈ sol_actions solution -> ga_ev a <= ga_ev best.
Proof.
  unfold getBestAction. destruct (sol_actions solution) as [|x l]; [discriminate|].
  simpl. intros [= <-].
  destruct (reduce_betterOf_split l [] x []) as (pre & post & Heq & H1 & H2).
  - intros a Ha. apply elem_of_nil in Ha. contradiction.
  - intros a Ha. apply elem_of_nil in Ha. contradiction.
  - simpl in Heq. rewrite Heq. split.
    + apply elem_of_app. right. apply elem_of_cons. auto.
    + intros a Ha. apply elem_of_app in Ha as [Ha|Ha];
        [apply Qlt_le_weak; auto|].
      apply elem_of_cons in Ha as [->|Ha]; [apply Qle_refl | auto].
Qed.

Lemma gtb_proper x x' y y' : x == x' -> y == y' -> Js.gtb x y = Js.gtb x' y'.
Proof.
  intros Ex Ey. destruct (Js.gtb x' y') eqn:E.
  - apply gtb_true. apply gtb_true in E. lra.
  - apply gtb_false. apply gtb_false in E. lra.
Qed.

(** X21: listing the actions of a solution in another order can change
    which of several equally good actions [getBestAction] returns, but
    not the EV of the action returned, and so not the verdict of
    [isBlunder] on any action. *)
Theorem best_ev_order_independent (solution solution' : GTOSolution)
    (chosen : GTOAction) :
  sol_actions solution ≡ₚ sol_actions solution' ->
  (forall best best',
     getBestAction solution = Some best ->
     getBestAction solution' = Some best' ->
     ga_ev best == ga_ev best')
  /\ isBlunder solution chosen = isBlunder solution' chosen.
Proof.
  intros Hp.
  assert (Hev : forall best best',
     getBestAction solution = Some best ->
     getBestAction solution' = Some best' ->
     ga_ev best == ga_ev best').
  { intros best best' Hb Hb'.
    apply getBestAction_max in Hb as [Hin Hmax].
    apply getBestAction_max in Hb' as [Hin' Hmax'].
    apply Qle_antisym.
    - apply Hmax'. rewrite <- Hp. exact Hin.
    - apply Hmax. rewrite Hp. exact Hin'. }
  split; [exact Hev|].
  unfold isBlunder.
  destruct (getBestAction solution) as [best|] eqn:Eb;
    destruct (getBestAction solution') as [best'|] eqn:Eb'.
  - f_equal. apply gtb_proper; [|reflexivity].
    rewrite (Hev best best' eq_refl eq_refl). reflexivity.
  - exfalso. unfold getBestAction in Eb, Eb'.
    destruct (sol_actions solution'); [|discriminate Eb'].
    apply Permutation_nil_r in Hp. rewrite Hp in Eb. discriminate Eb.
  - exfalso. unfold getBestAction in Eb, Eb'.
    destruct (sol_actions solution); [|discriminate Eb].
    symmetry in Hp. apply Permutation_nil_r in Hp. rewrite Hp in Eb'.
    discriminate Eb'.
  - reflexivity.
Qed.

Lemma best_ev_order_independent_witness :
  isBlunder tiedSolution tiedBet
  = isBlunder
      (mkGTOSolution "tied" flop BTN CO ["Ah"; "Kd"; "7s"] 7.5 100 None []
         [tiedBet; tiedCheck] None) tiedBet.
Proof.
  apply (best_ev_order_independent tiedSolution
           (mkGTOSolution "tied" flop BTN CO ["Ah"; "Kd"; "7s"] 7.5 100 None []
              [tiedBet; tiedCheck] None) tiedBet).
  simpl. apply Permutation_swap.
Defined.

(** *** The board along a hand *)

Lemma board_of_a_hand submitted :
  let g := gameState (handAfter usePokerGame submitted) in
  heroCards g = [parseCard "As"; parseCard "Qs"]
  /\ (gs_board g = gs_board createInitialGameState
      \/ gs_board g = gs_board createInitialGameState ++ [parseCard "3c"]
      \/ gs_board g
         = gs_board createInitialGameState ++ [parseCard "3c"; parseCard "9h"]).
Proof.
  cbv zeta. split.
  - unfold heroCards.
    destruct (handAfter_players usePokerGame submitted) as [-> _]. reflexivity.
  - destruct (hand_shape submitted)
      as [(_ & ->) | [(m1 & rest & _ & ->) | [(a1 & m1 & _ & Hnf & ->)
         | (a1 & m1 & a2 & m2 & rest & _ & Hnf & ->)]]].
    + left. reflexivity.
    + left. reflexivity.
    + right. left.
      rewrite makeAction_gameState by reflexivity.
      rewrite processAction_board, bool_decide_eq_false_2 by exact Hnf.
      reflexivity.
    + assert (Hopen : isHandComplete (makeAction usePokerGame a1 m1) = false)
        by (destruct a1; try contradiction; reflexivity).
      rewrite makeAction_gameState by exact Hopen.
      rewrite makeAction_gameState by reflexivity.
      rewrite processAction_board, processAction_street, processAction_board.
      rewrite (bool_decide_eq_false_2 (a1 = fold)) by exact Hnf.
      destruct (bool_decide (a2 = fold)); [right; left; reflexivity|].
      right. right. reflexivity.
Qed.

(** X22: along a hand played from the opening state the board keeps its
    flop cards in place, never holds more than five cards, and no card
    appears twice among the board and the hero's hole cards.  That bound
    is the work of the completion flag of [makeAction]: [processAction]
    by itself, on a state that is on the river, keeps the street and
    appends the nine of hearts once more for every action but a fold. *)
Theorem board_along_a_hand (submitted : list (ActionType * option Q))
    (state : GameState) (action : ActionType) (amount : option Q) :
  (let g := gameState (handAfter usePokerGame submitted) in
   gs_board createInitialGameState `prefix_of` gs_board g
   /\ (length (gs_board g) <= 5)%nat
   /\ NoDup (gs_board g ++ heroCards g))
  /\ (gs_street state = river -> action <> fold ->
      gs_street (processAction state action amount) = river
      /\ gs_board (processAction state action amount)
         = gs_board state ++ [parseCard "9h"]).
Proof.
  split.
  - cbv zeta. destruct (board_of_a_hand submitted) as [-> Hb].
    destruct Hb as [-> | [-> | ->]]; (split; [|split]);
      try (eexists; reflexivity); try (simpl; lia);
      try (vm_compute;
           repeat (apply NoDup_cons_2;
                   [intros Hin;
                    repeat (apply elem_of_cons in Hin as [Hin|Hin];
                            [discriminate Hin|]);
                    apply elem_of_nil in Hin; exact Hin|]);
           apply NoDup_nil_2).
  - intros Hst Hnf.
    rewrite processAction_street, processAction_board, Hst.
    rewrite bool_decide_eq_false_2 by exact Hnf. split; reflexivity.
Qed.

Lemma board_along_a_hand_witness :
  gs_street (processAction (mkGameState river 10 [] [] [] BTN) check None) = river
  /\ gs_board (processAction (mkGameState river 10 [] [] [] BTN) check None)
     = [] ++ [parseCard "9h"].
Proof.
  destruct (board_along_a_hand [] (mkGameState river 10 [] [] [] BTN) check None)
    as (_ & H).
  apply H; [reflexivity | discriminate].
Defined.

(** *** Which arrays the successor shares with its predecessor *)

Section HeapSharing.

Local Abbreviation successor := processAction.

Import Heap.

Implicit Types (h : heap) (l : loc) (g gs : GameState).

Local Ltac other_cell :=
  let E := fresh in
  intros E; subst; unfold obj_of in *; congruence.

Lemma tracked_cells h0 newState g b pl ah h :
  tracked h0 newState g b pl ah h ->
  h !! b = Some (OCards (gs_board g))
  /\ h !! pl = Some (OPlayers (gs_players g))
  /\ h !! ah = Some (OActions (gs_actionHistory g)).
Proof.
  intros [[_ _ Hcopy] Hn].
  apply readState_Some in Hcopy as (b' & pl' & ah' & Hn' & Hb & Hpl & Hah).
  unfold obj_of in Hn'. cbn in Hn'. rewrite Hn in Hn'.
  injection Hn' as <- <- <-. auto.
Qed.

Lemma tracked_alloc h0 newState g b pl ah h l o :
  tracked h0 newState g b pl ah h -> h !! l = None ->
  tracked h0 newState g b pl ah (<[l := o]> h).
Proof.
  intros [Hrun Hn] Hl. split; [apply running_alloc; assumption|].
  rewrite lookup_insert_ne by other_cell. exact Hn.
Qed.

Lemma tracked_update h0 newState g h g' b pl ah b' pl' ah' :
  tracked h0 newState g b pl ah h ->
  h !! b' = Some (OCards (gs_board g')) ->
  h !! pl' = Some (OPlayers (gs_players g')) ->
  h !! ah' = Some (OActions (gs_actionHistory g')) ->
  tracked h0 newState g' b' pl' ah'
    (<[newState := obj_of (mkFields (gs_street g') (gs_pot g') b' pl' ah'
                             (gs_currentPlayer g'))]> h).
Proof.
  intros [Hrun Hn] Hb Hpl Hah. split.
  - apply (running_update h0 newState g h g' b' pl' ah'); assumption.
  - rewrite lookup_insert_eq. reflexivity.
Qed.

Section Phases.

Variables (h0 : heap) (state : loc) (gs : GameState).
Hypothesis Hstate : readState h0 state = Some gs.

Lemma appendHistory_tracked newState g b pl ah h action amount :
  tracked h0 newState g b pl ah h ->
  wp (appendHistory state newState action amount)
    (fun _ h' =>
       exists ah', h !! ah' = None
         /\ tracked h0 newState
              (with_actionHistory g
                 (gs_actionHistory gs
                    ++ [mkPlayerAction action amount (gs_street gs)]))
              b pl ah' h') h.
Proof.
  intros Htr. pose proof (tracked_cells _ _ _ _ _ _ _ Htr) as (Hb & Hpl & Hah).
  pose proof Htr as [[Hsub Hfresh _] Hn].
  change (h !! newState
          = Some (obj_of (mkFields (gs_street g) (gs_pot g) b pl ah
                            (gs_currentPlayer g)))) in Hn.
  pose proof Hstate as Hst0.
  apply readState_Some in Hst0 as (b0 & pl0 & ah0 & Hl0 & Hb0 & Hpl0 & Hah0).
  unfold appendHistory.
  apply wp_bind, (wp_loadState state _ _ h (lookup_weaken _ _ _ _ Hl0 Hsub)).
  apply wp_bind, (wp_loadActions ah0 _ _ h (lookup_weaken _ _ _ _ Hah0 Hsub)).
  apply wp_bind, wp_alloc. intros hist Hhist.
  eapply (wp_set_actionHistory newState
            (mkFields (gs_street g) (gs_pot g) b pl ah (gs_currentPlayer g))).
  { rewrite lookup_insert_ne by other_cell. exact Hn. }
  cbn [f_street f_pot f_board f_players f_actionHistory f_currentPlayer].
  exists hist. split; [exact Hhist|].
  apply (tracked_update h0 newState g _
           (with_actionHistory g
              (gs_actionHistory gs
                 ++ [mkPlayerAction action amount (gs_street gs)])) b pl ah).
  - apply tracked_alloc; assumption.
  - rewrite lookup_insert_ne by other_cell. exact Hb.
  - rewrite lookup_insert_ne by other_cell. exact Hpl.
  - rewrite lookup_insert_eq. reflexivity.
Qed.

Lemma set_pot_tracked newState g b pl ah h v :
  tracked h0 newState g b pl ah h ->
  wp (loadState newState)
    (fun n h' =>
       wp (set_pot newState (f_pot n + v))
         (fun _ h'' =>
            tracked h0 newState (with_pot g (gs_pot g + v)) b pl ah h'') h') h.
Proof.
  intros Htr. pose proof (tracked_cells _ _ _ _ _ _ _ Htr) as (Hb & Hpl & Hah).
  pose proof Htr as [_ Hn].
  change (h !! newState
          = Some (obj_of (mkFields (gs_street g) (gs_pot g) b pl ah
                            (gs_currentPlayer g)))) in Hn.
  apply (wp_loadState newState
           (mkFields (gs_street g) (gs_pot g) b pl ah (gs_currentPlayer g)) _ h Hn).
  eapply wp_set_pot; [exact Hn|].
  cbn [f_street f_pot f_board f_players f_actionHistory f_currentPlayer].
  apply (tracked_update h0 newState g h (with_pot g (gs_pot g + v)) b pl ah);
    assumption.
Qed.

Lemma updatePot_tracked newState g b pl ah h action amount :
  tracked h0 newState g b pl ah h ->
  wp (updatePot state newState action amount)
    (fun _ h' => exists g', tracked h0 newState g' b pl ah h') h.
Proof.
  intros Htr. pose proof Htr as [[Hsub _ _] _].
  pose proof Hstate as Hst0.
  apply readState_Some in Hst0 as (b0 & pl0 & ah0 & Hl0 & _).
  unfold updatePot.
  destruct (bool_decide (action = bet) || bool_decide (action = raise)).
  - apply wp_bind, (wp_loadState state _ _ h (lookup_weaken _ _ _ _ Hl0 Hsub)).
    cbn [f_pot]. apply wp_bind.
    eapply wp_mono; [eapply set_pot_tracked; exact Htr|].
    intros n h' Hwp. eapply wp_mono; [exact Hwp|]. cbv beta. eauto.
  - destruct (bool_decide (action = call) && Js.truthy amount).
    + apply wp_bind.
      eapply wp_mono; [eapply set_pot_tracked; exact Htr|].
      intros n h' Hwp. eapply wp_mono; [exact Hwp|]. cbv beta. eauto.
    + apply wp_ret. eauto.
Qed.

Lemma dealCard_tracked newState g b pl ah h card :
  tracked h0 newState g b pl ah h ->
  wp (bind (loadState state) (fun s =>
      bind (loadCards (f_board s)) (fun cs =>
      bind (alloc (OCards (cs ++ [card]))) (fun nb =>
      set_board newState nb))))
    (fun _ h' =>
       exists nb g', h !! nb = None /\ tracked h0 newState g' nb pl ah h') h.
Proof.
  intros Htr. pose proof (tracked_cells _ _ _ _ _ _ _ Htr) as (Hb & Hpl & Hah).
  pose proof Htr as [[Hsub _ _] Hn].
  change (h !! newState
          = Some (obj_of (mkFields (gs_street g) (gs_pot g) b pl ah
                            (gs_currentPlayer g)))) in Hn.
  pose proof Hstate as Hst0.
  apply readState_Some in Hst0 as (b0 & pl0 & ah0 & Hl0 & Hb0 & _).
  apply wp_bind, (wp_loadState state _ _ h (lookup_weaken _ _ _ _ Hl0 Hsub)).
  apply wp_bind, (wp_loadCards b0 _ _ h (lookup_weaken _ _ _ _ Hb0 Hsub)).
  apply wp_bind, wp_alloc. intros nb Hnb.
  eapply (wp_set_board newState
            (mkFields (gs_street g) (gs_pot g) b pl ah (gs_currentPlayer g))).
  { rewrite lookup_insert_ne by other_cell. exact Hn. }
  cbn [f_street f_pot f_board f_players f_actionHistory f_currentPlayer].
  exists nb, (with_board g (gs_board gs ++ [card])). split; [exact Hnb|].
  apply (tracked_update h0 newState g _
           (with_board g (gs_board gs ++ [card])) b pl ah).
  - apply tracked_alloc; assumption.
  - rewrite lookup_insert_eq. reflexivity.
  - rewrite lookup_insert_ne by other_cell. exact Hpl.
  - rewrite lookup_insert_ne by other_cell. exact Hah.
Qed.

Lemma progressStreet_tracked newState g b pl ah h action :
  tracked h0 newState g b pl ah h ->
  wp (progressStreet state newState action)
    (fun _ h' =>
       exists b' g', tracked h0 newState g' b' pl ah h'
         /\ (if dealsCard (gs_street gs) action then h !! b' = None
             else b' = b)) h.
Proof.
  intros Htr. pose proof (tracked_cells _ _ _ _ _ _ _ Htr) as (Hb & Hpl & Hah).
  pose proof Htr as [[Hsub _ _] Hn].
  change (h !! newState
          = Some (obj_of (mkFields (gs_street g) (gs_pot g) b pl ah
                            (gs_currentPlayer g)))) in Hn.
  pose proof Hstate as Hst0.
  apply readState_Some in Hst0 as (b0 & pl0 & ah0 & Hl0 & _).
  unfold progressStreet, dealsCard.
  destruct (negb (bool_decide (action = fold))); cbn [andb];
    [|apply wp_ret; eauto].
  apply wp_bind, (wp_loadState state _ _ h (lookup_weaken _ _ _ _ Hl0 Hsub)).
  apply wp_bind.
  eapply (wp_set_street newState
            (mkFields (gs_street g) (gs_pot g) b pl ah (gs_currentPlayer g)));
    [exact Hn|].
  cbn [f_street f_pot f_board f_players f_actionHistory f_currentPlayer].
  set (g' := with_street g (getNextStreet (gs_street gs))).
  assert (Htr' : tracked h0 newState g' b pl ah
            (<[newState := obj_of (mkFields (gs_street g') (gs_pot g') b pl ah
                                     (gs_currentPlayer g'))]> h))
    by (apply (tracked_update h0 newState g h g' b pl ah); assumption).
  assert (Hkeep : forall l,
            <[newState := obj_of (mkFields (gs_street g') (gs_pot g') b pl ah
                                    (gs_currentPlayer g'))]> h !! l = None ->
            h !! l = None).
  { intros l Hl. destruct (decide (l = newState)) as [->|Hne].
    - rewrite lookup_insert_eq in Hl. discriminate Hl.
    - rewrite lookup_insert_ne in Hl by congruence. exact Hl. }
  apply wp_bind. eapply wp_loadState; [apply lookup_insert_eq|].
  cbn [f_street].
  destruct (bool_decide (getNextStreet (gs_street gs) = turn)); cbn [orb].
  - eapply wp_mono; [eapply dealCard_tracked; exact Htr'|].
    intros u h' (nb & g2 & Hnb & Htr2). exists nb, g2.
    split; [exact Htr2 | apply Hkeep, Hnb].
  - apply wp_bind. eapply wp_loadState; [apply lookup_insert_eq|].
    cbn [f_street].
    destruct (bool_decide (getNextStreet (gs_street gs) = river)).
    + eapply wp_mono; [eapply dealCard_tracked; exact Htr'|].
      intros u h' (nb & g2 & Hnb & Htr2). exists nb, g2.
      split; [exact Htr2 | apply Hkeep, Hnb].
    + apply wp_ret. exists b, g'. auto.
Qed.

Lemma processAction_tracked b0 pl0 ah0 action amount :
  h0 !! state = Some (OGameState (gs_street gs) (gs_pot gs) b0 pl0 ah0
                        (gs_currentPlayer gs)) ->
  wp (Heap.processAction state action amount)
    (fun newState h' =>
       exists b' ah' g',
         tracked h0 newState g' b' pl0 ah' h'
         /\ h0 !! ah' = None
         /\ (if dealsCard (gs_street gs) action then h0 !! b' = None
             else b' = b0)) h0.
Proof.
  intros Hl0.
  change (h0 !! state
          = Some (obj_of (mkFields (gs_street gs) (gs_pot gs) b0 pl0 ah0
                            (gs_currentPlayer gs)))) in Hl0.
  unfold Heap.processAction.
  apply wp_bind, (wp_loadState state _ _ h0 Hl0).
  apply wp_bind, wp_alloc. intros newState Hnew.
  assert (Htr : tracked h0 newState gs b0 pl0 ah0
                  (<[newState := obj_of (mkFields (gs_street gs) (gs_pot gs)
                                           b0 pl0 ah0 (gs_currentPlayer gs))]> h0)).
  { split; [apply (copy_runs h0 state gs Hstate); assumption|].
    apply lookup_insert_eq. }
  apply wp_bind.
  eapply wp_mono; [eapply appendHistory_tracked; exact Htr|].
  intros u1 h1 (ah' & Hah' & Htr1). cbv beta.
  assert (Hfresh_ah : h0 !! ah' = None).
  { destruct Htr as [[Hsub _ _] _]. eapply lookup_weaken_None; eassumption. }
  apply wp_bind.
  eapply wp_mono; [eapply updatePot_tracked; exact Htr1|].
  intros u2 h2 (g2 & Htr2). cbv beta.
  apply wp_bind.
  eapply wp_mono; [eapply progressStreet_tracked; exact Htr2|].
  intros u3 h3 (b' & g3 & Htr3 & Hb'). cbv beta.
  apply wp_ret. exists b', ah', g3. split; [exact Htr3|].
  split; [exact Hfresh_ah|].
  destruct (dealsCard (gs_street gs) action); [|exact Hb'].
  destruct Htr2 as [[Hsub _ _] _]. eapply lookup_weaken_None; eassumption.
Qed.

End Phases.

End HeapSharing.

(** X23: the state object [processAction] returns shares the players
    array with the state it was called on (its [players] field holds the
    same cell), its [actionHistory] is always a new array, and its
    [board] is a new array exactly when a card is dealt, that is when the
    action is not a fold and the next street is the turn or the river;
    otherwise the board array is shared too. *)
Theorem successor_shares_players (h : gmap Heap.loc Heap.object)
    (state b pl ah : Heap.loc) (gs : GameState) (action : ActionType)
    (amount : option Q) :
  Heap.readState h state = Some gs ->
  h !! state = Some (Heap.OGameState (gs_street gs) (gs_pot gs) b pl ah
                       (gs_currentPlayer gs)) ->
  exists newState h' st' p' b' ah' cp',
    Heap.processAction state action amount h = Some (newState, h')
    /\ h' !! newState = Some (Heap.OGameState st' p' b' pl ah' cp')
    /\ h !! ah' = None
    /\ (if dealsCard (gs_street gs) action then h !! b' = None else b' = b).
Proof.
  intros Hstate Hl.
  pose proof (processAction_tracked h state gs Hstate b pl ah action amount Hl)
    as Hwp.
  unfold Heap.wp in Hwp.
  destruct (Heap.processAction state action amount h) as [[newState h']|];
    [|contradiction].
  destruct Hwp as (b' & ah' & g' & [_ Hn] & Hah & Hb).
  exists newState, h', (gs_street g'), (gs_pot g'), b', ah', (gs_currentPlayer g').
  auto.
Qed.

Lemma successor_shares_players_witness :
  exists newState h' st' p' b' ah' cp',
    Heap.processAction 1%positive fold None openingHeap = Some (newState, h')
    /\ h' !! newState
       = Some (Heap.OGameState st' p' b' 3%positive ah' cp')
    /\ openingHeap !! ah' = None
    /\ (if dealsCard (gs_street createInitialGameState) fold
        then openingHeap !! b' = None else b' = 2%positive).
Proof.
  apply (successor_shares_players openingHeap 1%positive 2%positive 3%positive
           4%positive createInitialGameState fold None).
  - vm_compute. reflexivity.
  - vm_compute. reflexivity.
Defined.

Lemma hand_has_at_most_two_decisions_witness :
  isHandComplete (handAfter usePokerGame [(check, None); (bet, Some 0.5)]) = true.
Proof.
  destruct (hand_has_at_most_two_decisions [(check, None); (bet, Some 0.5)])
    as (_ & _ & H & _).
  apply H. reflexivity.
Defined.

(** ** The functions on doubles

    In this section [getBestAction], [isBlunder], [findAction],
    [analyzeDecision], [calculateScore] and the number operations are
    those of module [Double]. *)

Section OnDoubles.
Import Double.

(** *** Literals *)

(* A decimal literal denotes the nearest double, as in JavaScript. *)
#[local] Set Warnings "-inexact-float".

(** [lit] reads a literal as the machine does. *)
Lemma lit_reads_literals :
  lit 0.1 = Prim2SF 0.1%float /\ lit 2.0 = Prim2SF 2.0%float
  /\ lit 1.5 = Prim2SF 1.5%float /\ lit 3 = Prim2SF 3%float
  /\ lit 20 = Prim2SF 20%float /\ lit 100 = Prim2SF 100%float
  /\ lit 0 = Prim2SF 0%float /\ lit 1 = Prim2SF 1%float
  /\ lit 12.1 = Prim2SF 12.1%float /\ lit 11.3 = Prim2SF 11.3%float
  /\ lit (-2.5) = Prim2SF (-2.5)%float /\ lit 10.5 = Prim2SF 10.5%float
  /\ lit 11.0 = Prim2SF 11.0%float /\ lit 0.60 = Prim2SF 0.60%float
  /\ lit 0.40 = Prim2SF 0.40%float /\ lit 0.35 = Prim2SF 0.35%float
  /\ lit 0.20 = Prim2SF 0.20%float /\ lit 0.55 = Prim2SF 0.55%float
  /\ lit 0.65 = Prim2SF 0.65%float /\ lit 9.8 = Prim2SF 9.8%float
  /\ lit 7.8 = Prim2SF 7.8%float /\ lit 1e308 = Prim2SF 1e308%float.
Proof. repeat split; vm_compute; reflexivity. Qed.

Lemma lit_0 : lit 0 = S754_zero false.
Proof. reflexivity. Qed.

(** *** Order *)

Ltac order_cases :=
  repeat match goal with
         | H : context [Z.compare ?a ?b] |- _ => destruct (Z.compare_spec a b)
         | |- context [Z.compare ?a ?b] => destruct (Z.compare_spec a b)
         | H : context [Pos.compare ?a ?b] |- _ => destruct (Pos.compare_spec a b)
         | |- context [Pos.compare ?a ?b] => destruct (Pos.compare_spec a b)
         end.

Lemma ltb_irrefl x : ltb x x = false.
Proof.
  unfold ltb, SFltb, SFcompare.
  destruct x as [sx|sx| |sx mx ex]; try destruct sx; try reflexivity;
    change (Pos.compare_cont Eq) with Pos.compare;
    order_cases; simpl; try reflexivity; lia.
Qed.

(** If [y] is above [x] and [a] is not above [x], then [a] is not above
    [y]; NaN is above nothing and nothing is above NaN. *)
Lemma ltb_trans_not x y a :
  ltb x y = true -> ltb x a = false -> ltb y a = false.
Proof.
  unfold ltb, SFltb, SFcompare.
  destruct x as [sx|sx| |sx mx ex], y as [sy|sy| |sy my ey],
    a as [sa|sa| |sa ma ea];
    try destruct sx; try destruct sy; try destruct sa;
    try reflexivity; try discriminate;
    change (Pos.compare_cont Eq) with Pos.compare;
    intros H1 H2; order_cases; simpl in *;
    try reflexivity; try discriminate; try lia.
Qed.

(** [x - x] is [+0], or NaN when [x] is infinite or NaN: never above
    2. *)
Lemma sub_diag_not_gt x : gtb (sub x x) (lit 2.0) = false.
Proof.
  destruct x as [[]|[]| |s m e]; try reflexivity.
  unfold sub, SFsub. rewrite Z.sub_diag. reflexivity.
Qed.

Lemma ltb_asym x y : ltb x y = true -> ltb y x = false.
Proof.
  unfold ltb, SFltb, SFcompare.
  destruct x as [sx|sx| |sx mx ex], y as [sy|sy| |sy my ey];
    try destruct sx; try destruct sy;
    try reflexivity; try discriminate;
    change (Pos.compare_cont Eq) with Pos.compare;
    intros H1; order_cases; simpl in *;
    try reflexivity; try discriminate; try lia.
Qed.

Lemma ltb_trans x y z : ltb x y = true -> ltb y z = true -> ltb x z = true.
Proof.
  unfold ltb, SFltb, SFcompare.
  destruct x as [sx|sx| |sx mx ex], y as [sy|sy| |sy my ey],
    z as [sz|sz| |sz mz ez];
    try destruct sx; try destruct sy; try destruct sz;
    try reflexivity; try discriminate;
    change (Pos.compare_cont Eq) with Pos.compare;
    intros H1 H2; order_cases; simpl in *;
    try reflexivity; try discriminate; try lia.
Qed.

(** *** Best action *)

(** The reduction keeps its seed or moves to a later action of strictly
    larger EV, and no action it has met has a larger EV than the one it
    ends on. *)
Lemma fold_betterOf_max l : forall best,
  let r := fold_left betterOf l best in
  (r = best \/ r ∈ l)
  /\ (r = best \/ ltb (da_ev best) (da_ev r) = true)
  /\ forall a, a ∈ l -> gtb (da_ev a) (da_ev r) = false.
Proof.
  induction l as [|y l IH]; intros best; cbv zeta.
  - split; [left; reflexivity|]. split; [left; reflexivity|].
    intros a Ha. apply elem_of_nil in Ha. contradiction.
  - change (fold_left betterOf (y :: l) best)
      with (fold_left betterOf l (betterOf best y)).
    destruct (IH (betterOf best y)) as (Hin & Hb & Hall).
    set (r := fold_left betterOf l (betterOf best y)) in *.
    unfold gtb in *.
    assert (Hstep : betterOf best y = y /\ ltb (da_ev best) (da_ev y) = true
                    \/ betterOf best y = best /\ ltb (da_ev best) (da_ev y) = false).
    { unfold betterOf, gtb. destruct (ltb (da_ev best) (da_ev y)); auto. }
    destruct Hstep as [[Hs E]|[Hs E]]; rewrite Hs in Hin, Hb.
    + split; [right; apply elem_of_cons; destruct Hin as [->|Hin]; auto|].
      split.
      * right. destruct Hb as [->|Hb]; [exact E|].
        exact (ltb_trans _ _ _ E Hb).
      * intros a Ha. apply elem_of_cons in Ha as [->|Ha]; [|auto].
        destruct Hb as [->|Hb]; [apply ltb_irrefl | apply ltb_asym, Hb].
    + split; [destruct Hin as [Hin|Hin];
              [left; exact Hin | right; apply elem_of_cons; auto]|].
      split; [exact Hb|].
      intros a Ha. apply elem_of_cons in Ha as [->|Ha]; [|auto].
      destruct Hb as [->|Hb]; [exact E|].
      exact (ltb_trans_not _ _ _ Hb E).
Qed.

(** On a non-empty list [getBestAction] returns an offered action, and
    no offered action has a larger EV. *)
Lemma getBestAction_max_on_doubles (solution : GTOSolution) :
  dsol_actions solution <> [] ->
  exists best,
    getBestAction solution = Some best
    /\ best ∈ dsol_actions solution
    /\ forall a, a ∈ dsol_actions solution -> gtb (da_ev a) (da_ev best) = false.
Proof.
  unfold getBestAction. destruct (dsol_actions solution) as [|x l];
    [intros H; contradiction | intros _].
  exists (fold_left betterOf l x). split; [reflexivity|].
  destruct (fold_betterOf_max l x) as (Hin & Hb & Hall).
  split; [apply elem_of_cons; destruct Hin as [->|Hin]; auto|].
  intros a Ha. apply elem_of_cons in Ha as [->|Ha]; [|auto].
  unfold gtb. destruct Hb as [->|Hb]; [apply ltb_irrefl | apply ltb_asym, Hb].
Qed.

(** *** Blunders *)

(** The entry of the hard-wired best action has the largest EV of the
    table of [analyzeDecision]. *)
Lemma gtoSolution_bet_is_max k dat :
  gtoSolution k = Some dat -> gtb (dev dat) (lit 12.1) = false.
Proof. destruct k; intros [= <-]; vm_compute; reflexivity. Qed.

(** The rounding of the subtraction decides at the threshold: 9.8 less
    7.8 is the double just above 2, and the raise of EV 7.8 is a blunder
    against the call of EV 9.8. *)
Lemma isBlunder_at_the_threshold :
  getBestAction twoLines = Some (mkGTOAction call None (lit 0.85) (lit 9.8))
  /\ ltb (lit 2.0) (sub (lit 9.8) (lit 7.8)) = true
  /\ isBlunder twoLines (mkGTOAction raise (Some (lit 1.0)) (lit 0.15) (lit 7.8))
     = Some true.
Proof. repeat split; vm_compute; reflexivity. Qed.

(** C7: a decision is a blunder exactly when the EV of the best action
    less the EV of the chosen action, as computed on doubles, exceeds
    2.0 big blinds.  In [isBlunder] the best action is the one
    [getBestAction] returns, an offered action than which no offered
    action has a larger EV; in [analyzeDecision] it is the hard-wired
    bet, the entry of largest EV of the table, so that folding is a
    blunder.  Choosing the best action, or any action of the same EV,
    is never a blunder. *)
Theorem isBlunder_iff_above_threshold (solution : GTOSolution) (chosen : GTOAction)
    (state : GameState) (action : ActionType) (amount : option double) :
  dsol_actions solution <> [] ->
  (exists best,
      getBestAction solution = Some best
      /\ best ∈ dsol_actions solution
      /\ (forall a, a ∈ dsol_actions solution ->
                    gtb (da_ev a) (da_ev best) = false)
      /\ (exists b, isBlunder solution chosen = Some b
                    /\ (b = true
                        <-> gtb (sub (da_ev best) (da_ev chosen)) (lit 2.0) = true))
      /\ isBlunder solution best = Some false
      /\ (da_ev chosen = da_ev best -> isBlunder solution chosen = Some false))
  /\ (let r := analyzeDecision state action amount in
      exists bestData chosenData,
        gtoSolution (dan_bestAction r) = Some bestData
        /\ gtoSolution action = Some chosenData
        /\ dan_gtoEV r = dev chosenData
        /\ (forall k dat, gtoSolution k = Some dat ->
                          gtb (dev dat) (dev bestData) = false)
        /\ (dan_isBlunder r = true
            <-> gtb (sub (dev bestData) (dev chosenData)) (lit 2.0) = true)
        /\ (action = dan_bestAction r -> dan_isBlunder r = false)
        /\ (action = fold -> dan_isBlunder r = true)).
Proof.
  intros Hne. split.
  - destruct (getBestAction_max_on_doubles solution Hne)
      as (best & Hbest & Hin & Hmax).
    exists best. split; [exact Hbest|]. split; [exact Hin|].
    split; [exact Hmax|]. unfold isBlunder. rewrite Hbest. split.
    + eexists. split; [reflexivity|]. reflexivity.
    + split; [f_equal; apply sub_diag_not_gt|].
      intros ->. f_equal. apply sub_diag_not_gt.
  - cbv zeta. exists (mkActionData (lit 0.40) (lit 12.1)).
    destruct (gtoSolution action) as [chosenData|] eqn:E;
      [|destruct action; discriminate].
    exists chosenData. split; [reflexivity|]. split; [reflexivity|].
    unfold analyzeDecision. rewrite E.
    cbn [default dan_gtoEV dan_isBlunder dan_bestAction gtoSolution dev].
    split; [reflexivity|]. split; [apply gtoSolution_bet_is_max|].
    split; [reflexivity|]. split.
    + intros ->. simpl in E. injection E as <-. vm_compute. reflexivity.
    + intros ->. simpl in E. injection E as <-. vm_compute. reflexivity.
Qed.

Lemma isBlunder_iff_above_threshold_witness :
  let chosen := mkGTOAction raise (Some (lit 1.0)) (lit 0.15) (lit 7.8) in
  (exists best,
      getBestAction twoLines = Some best
      /\ best ∈ dsol_actions twoLines
      /\ (forall a, a ∈ dsol_actions twoLines ->
                    gtb (da_ev a) (da_ev best) = false)
      /\ (exists b, isBlunder twoLines chosen = Some b
                    /\ (b = true
                        <-> gtb (sub (da_ev best) (da_ev chosen)) (lit 2.0) = true))
      /\ isBlunder twoLines best = Some false
      /\ (da_ev chosen = da_ev best -> isBlunder twoLines chosen = Some false))
  /\ (let r := analyzeDecision createInitialGameState fold None in
      exists bestData chosenData,
        gtoSolution (dan_bestAction r) = Some bestData
        /\ gtoSolution fold = Some chosenData
        /\ dan_gtoEV r = dev chosenData
        /\ (forall k dat, gtoSolution k = Some dat ->
                          gtb (dev dat) (dev bestData) = false)
        /\ (dan_isBlunder r = true
            <-> gtb (sub (dev bestData) (dev chosenData)) (lit 2.0) = true)
        /\ (fold = dan_bestAction r -> dan_isBlunder r = false)
        /\ (fold = fold -> dan_isBlunder r = true)).
Proof.
  cbv zeta.
  apply (isBlunder_iff_above_threshold twoLines
           (mkGTOAction raise (Some (lit 1.0)) (lit 0.15) (lit 7.8))
           createInitialGameState fold None).
  discriminate.
Defined.

(** *** [findAction] *)

(** The test of [findAction] on one offered action. *)
Lemma sizeMatches_false actionType size a :
  sizeMatches actionType size a = false
  <-> da_action a <> actionType \/ sizeMismatch size a.
Proof.
  unfold sizeMatches, sizeMismatch. case_bool_decide as Hty; simpl.
  - destruct (truthy size); simpl.
    + destruct (truthy (da_size a)); simpl.
      * split.
        -- intros H. right. repeat split. exact H.
        -- intros [H|(_ & _ & H)]; [contradiction | exact H].
      * split; [discriminate|]. intros [H|(_ & H & _)];
          [contradiction | discriminate].
    + split; [discriminate|]. intros [H|(H & _)];
        [contradiction | discriminate].
  - split; auto.
Qed.

(** The tolerance is decided by the rounded difference: 0.5 less 0.6 is,
    on doubles, nearer to zero than the double 0.1, and a bet of 0.6
    finds the 0.5 bet of the turn scenario. *)
Lemma findAction_at_the_tolerance :
  ltb (Math_abs (sub (lit 0.5) (lit 0.6))) (lit 0.1) = true
  /\ findAction turnScenario bet (Some (lit 0.6))
     = Some (mkGTOAction bet (Some (lit 0.50)) (lit 0.20) (lit 14.5)).
Proof. split; vm_compute; reflexivity. Qed.

(** X2: an action returned by [findAction] is offered by the solution,
    has the requested type and, when both it and the request carry a
    size that is neither zero nor NaN, the distance between the two
    sizes as computed on doubles is below the double 0.1; it is the
    first such action, every action listed before it being of another
    type or too far in size. *)
Theorem findAction_found (solution : GTOSolution) (actionType : ActionType)
    (size : option double) (a : GTOAction) :
  findAction solution actionType size = Some a ->
  a ∈ dsol_actions solution
  /\ da_action a = actionType
  /\ (truthy size = true -> truthy (da_size a) = true ->
      ltb (Math_abs (sub (num (da_size a)) (num size))) (lit 0.1) = true)
  /\ exists pre post,
       dsol_actions solution = pre ++ a :: post
       /\ forall b, b ∈ pre -> da_action b <> actionType \/ sizeMismatch size b.
Proof.
  unfold findAction. intros H.
  apply find_Some in H as (pre & post & Hl & Ha & Hpre).
  unfold sizeMatches in Ha.
  assert (Hty : da_action a = actionType).
  { destruct (bool_decide (da_action a = actionType)) eqn:E;
      [apply bool_decide_eq_true in E; exact E | discriminate Ha]. }
  split; [rewrite Hl; apply elem_of_app; right; apply elem_of_cons; auto|].
  split; [exact Hty|]. split.
  - intros Hs Has. rewrite bool_decide_eq_true_2 in Ha by exact Hty.
    rewrite Hs, Has in Ha. exact Ha.
  - exists pre, post. split; [exact Hl|].
    intros b Hb. apply sizeMatches_false. apply Hpre. exact Hb.
Qed.

Lemma findAction_found_witness :
  let a := mkGTOAction bet (Some (lit 0.50)) (lit 0.20) (lit 14.5) in
  a ∈ dsol_actions turnScenario
  /\ da_action a = bet
  /\ (truthy (Some (lit 0.6)) = true -> truthy (da_size a) = true ->
      ltb (Math_abs (sub (num (da_size a)) (num (Some (lit 0.6))))) (lit 0.1)
      = true)
  /\ exists pre post,
       dsol_actions turnScenario = pre ++ a :: post
       /\ forall b, b ∈ pre ->
                    da_action b <> bet \/ sizeMismatch (Some (lit 0.6)) b.
Proof.
  apply (findAction_found turnScenario bet (Some (lit 0.6))).
  vm_compute. reflexivity.
Defined.

(** X3: [findAction] returns [undefined] exactly when every offered
    action is of another type or too far in size: both sizes given,
    neither zero nor NaN, and their distance as computed on doubles not
    below the double 0.1.  Hence a request without a size, or with size
    0 or NaN, fails only when no action of the type is offered, and a
    request of any size finds an offered action that has no size. *)
Theorem findAction_undefined (solution : GTOSolution) (actionType : ActionType)
    (size : option double) :
  (findAction solution actionType size = None
   <-> forall a, a ∈ dsol_actions solution ->
                 da_action a <> actionType \/ sizeMismatch size a)
  /\ (truthy size = false ->
      (findAction solution actionType size = None
       <-> forall a, a ∈ dsol_actions solution -> da_action a <> actionType))
  /\ (forall a, a ∈ dsol_actions solution -> da_action a = actionType ->
                truthy (da_size a) = false ->
                findAction solution actionType size <> None).
Proof.
  assert (Hnone : findAction solution actionType size = None
                  <-> forall a, a ∈ dsol_actions solution ->
                                da_action a <> actionType \/ sizeMismatch size a).
  { unfold findAction. rewrite find_None. split; intros H a Ha.
    - apply sizeMatches_false, H, Ha.
    - apply sizeMatches_false, H, Ha. }
  split; [exact Hnone|]. split.
  - intros Hs. rewrite Hnone. split; intros H a Ha.
    + destruct (H a Ha) as [Hty|(Ht & _)]; [exact Hty | congruence].
    + left. apply H, Ha.
  - intros a Ha Hty Hsz Hn. rewrite Hnone in Hn.
    destruct (Hn a Ha) as [Hne|(_ & Ht & _)]; [contradiction | congruence].
Qed.

Lemma findAction_undefined_witness :
  findAction turnScenario raise (Some (lit 0)) = None
  <-> forall a, a ∈ dsol_actions turnScenario -> da_action a <> raise.
Proof.
  destruct (findAction_undefined turnScenario raise (Some (lit 0))) as (_ & H & _).
  apply H. reflexivity.
Defined.

(** *** Signs of rounded results *)

Lemma shr_1_nonneg mrs : (0 <= shr_m mrs)%Z -> (0 <= shr_m (shr_1 mrs))%Z.
Proof. destruct mrs as [[|[p|p|]|p] r s]; simpl; lia. Qed.

Lemma iter_shr_1_nonneg p : forall mrs,
  (0 <= shr_m mrs)%Z -> (0 <= shr_m (SpecFloat.iter_pos shr_1 p mrs))%Z.
Proof.
  induction p as [p IH|p IH|]; intros mrs H; simpl.
  - apply IH, IH, shr_1_nonneg, H.
  - apply IH, IH, H.
  - apply shr_1_nonneg, H.
Qed.

Lemma shr_fexp_nonneg m e l :
  (0 <= m)%Z -> (0 <= shr_m (fst (shr_fexp prec emax m e l)))%Z.
Proof.
  intros H. unfold shr_fexp, shr.
  assert (H0 : (0 <= shr_m (shr_record_of_loc m l))%Z)
    by (destruct l as [|[]]; exact H).
  destruct (fexp prec emax (Zdigits2 m + e) - e)%Z; simpl;
    [exact H0 | apply iter_shr_1_nonneg, H0 | exact H0].
Qed.

Lemma round_nearest_even_nonneg m l :
  (0 <= m)%Z -> (0 <= round_nearest_even m l)%Z.
Proof.
  intros H. destruct l as [|[]]; simpl; try destruct (Z.even m); lia.
Qed.

(** Rounding a non-negative mantissa under sign [s] gives a zero, a
    finite number or an infinity of sign [s]. *)
Lemma binary_round_aux_signed s m e l :
  (0 <= m)%Z -> signed s (binary_round_aux prec emax s m e l).
Proof.
  intros H. unfold binary_round_aux.
  pose proof (shr_fexp_nonneg m e l H) as H1.
  destruct (shr_fexp prec emax m e l) as [mrs' e'].
  pose proof (shr_fexp_nonneg
                (round_nearest_even (shr_m mrs') (loc_of_shr_record mrs')) e'
                loc_Exact (round_nearest_even_nonneg _ _ H1)) as H2.
  destruct (shr_fexp prec emax _ e' loc_Exact) as [mrs'' e''].
  simpl in H2. destruct (shr_m mrs'') as [|p|p]; [reflexivity| |lia].
  destruct (e'' <=? emax - prec)%Z; reflexivity.
Qed.

Lemma ofZ_signed q : (0 < q)%Z -> signed false (ofZ q).
Proof.
  destruct q as [|p|p]; try lia. intros _.
  unfold ofZ, binary_normalize, binary_round.
  destruct (shl_align p 0 _) as [mz ez].
  apply binary_round_aux_signed. lia.
Qed.

(** [Math.max(0, x)] and [Math.round] of a value that is not negative
    are NaN or not negative. *)
Lemma Math_max_0_signed x :
  isNaN (Math_max (lit 0) x) = true \/ signed false (Math_max (lit 0) x).
Proof.
  rewrite lit_0. destruct x as [s|[]| |[] m e]; simpl; auto.
Qed.

Lemma Math_round_signed x :
  isNaN x = true \/ signed false x ->
  isNaN (Math_round x) = true \/ signed false (Math_round x).
Proof.
  intros [H|H]; [destruct x; try discriminate H; left; reflexivity|].
  destruct x as [s|s| |s m e]; simpl in H; try contradiction; subst;
    try (right; reflexivity).
  destruct e as [|k|k]; try (right; reflexivity).
  right. unfold Math_round.
  destruct (((2 * Z.pos m + 2 ^ Z.pos k) / 2 ^ (Z.pos k + 1)) =? 0)%Z eqn:E;
    [reflexivity|].
  apply ofZ_signed. apply Z.eqb_neq in E.
  assert (0 <= (2 * Z.pos m + 2 ^ Z.pos k) / 2 ^ (Z.pos k + 1))%Z; [|lia].
  apply Z.div_pos; [|apply Z.pow_pos_nonneg; lia].
  assert (0 < 2 ^ Z.pos k)%Z by (apply Z.pow_pos_nonneg; lia). lia.
Qed.

Lemma signed_not_below_0 x :
  isNaN x = true \/ signed false x -> ltb x (lit 0) = false.
Proof.
  rewrite lit_0. intros [H|H]; destruct x as [s|s| |s m e];
    try discriminate H; try contradiction; simpl in H; subst; reflexivity.
Qed.

(** *** Hand score *)

Lemma fold_left_evLoss ds : forall acc,
  fold_left (fun total d => add total (evLoss d)) ds acc
  = fold_left add (map loss ds) acc.
Proof.
  induction ds as [|d ds IH]; intros acc; [reflexivity|]. simpl. apply IH.
Qed.

Lemma calculateScore_nonempty_on_doubles ds :
  ds <> [] -> calculateScore ds = Math_round (unrounded ds).
Proof.
  intros Hne. unfold calculateScore, unrounded, average, total.
  destruct ds as [|d ds]; [contradiction|].
  cbn [length Nat.eqb]. cbv zeta. rewrite fold_left_evLoss. reflexivity.
Qed.

Lemma calculateScore_signed ds :
  isNaN (calculateScore ds) = true \/ signed false (calculateScore ds).
Proof.
  destruct ds as [|d ds]; [right; reflexivity|].
  rewrite calculateScore_nonempty_on_doubles by discriminate.
  apply Math_round_signed, Math_max_0_signed.
Qed.

(** NaN, once in the running total, stays. *)
Lemma add_nan_r x : add x S754_nan = S754_nan.
Proof. destruct x as [[]|[]| |[] m e]; reflexivity. Qed.

Lemma fold_add_nan xs : fold_left add xs S754_nan = S754_nan.
Proof. induction xs as [|x xs IH]; [reflexivity | exact IH]. Qed.

Lemma total_nan ds d :
  d ∈ ds -> dd_isBlunder d = false -> isNaN (dd_gtoFrequency d) = true ->
  total ds = S754_nan.
Proof.
  intros Hin Hb Hf. apply list_elem_of_split in Hin as (pre & post & ->).
  unfold total. rewrite map_app, fold_left_app. cbn [map fold_left].
  assert (Hl : loss d = S754_nan).
  { unfold loss. rewrite Hb. destruct (dd_gtoFrequency d); try discriminate Hf.
    reflexivity. }
  rewrite Hl, add_nan_r. apply fold_add_nan.
Qed.

(** Swapping the two losses of a two-decision hand. *)
Lemma add_from_0_swap a b :
  add (add (lit 0) a) b = add (add (lit 0) b) a.
Proof.
  rewrite lit_0.
  destruct a as [[]|[]| |sa ma ea], b as [[]|[]| |sb mb eb]; try reflexivity.
  change (add (S754_zero false) (S754_finite sa ma ea)) with (S754_finite sa ma ea).
  change (add (S754_zero false) (S754_finite sb mb eb)) with (S754_finite sb mb eb).
  unfold add, SFadd. rewrite Z.min_comm, Z.add_comm. reflexivity.
Qed.



(** Two blunders and a decision of frequency 0.65: in exact arithmetic
    the unrounded value would be 56.5 and the score 57; on doubles the
    unrounded value is just below 56.5 and the score is 56. *)
Lemma calculateScore_below_the_half :
  let ds := [decisionOf (lit 0) true; decisionOf (lit 0) true;
             decisionOf (lit 0.65) false] in
  ltb (unrounded ds) (lit 56.5) = true
  /\ calculateScore ds = lit 56.
Proof. repeat split; vm_compute; reflexivity. Qed.


(** No upper clamp is applied: a non-blunder decision recorded with a
    frequency of 2 scores 130. *)
Lemma calculateScore_above_100 :
  calculateScore [decisionOf (lit 2) false] = lit 130.
Proof. vm_compute. reflexivity. Qed.

(** X13: a hand of two decisions scores the same in either order; from
    four decisions on the order in which the losses are added can move
    the score: two blunders followed by decisions of frequency 0.4 and
    0.2 score 59, and 60 with the last two decisions swapped. *)
Theorem calculateScore_order_of_decisions (d1 d2 : Decision) :
  calculateScore [d1; d2] = calculateScore [d2; d1]
  /\ (let b := decisionOf (lit 0) true in
      let ds := [b; b; decisionOf (lit 0.4) false; decisionOf (lit 0.2) false] in
      let ds' := [b; b; decisionOf (lit 0.2) false; decisionOf (lit 0.4) false] in
      ds ≡ₚ ds' /\ calculateScore ds = lit 59 /\ calculateScore ds' = lit 60).
Proof.
  split.
  - unfold calculateScore. cbn [length Nat.eqb fold_left]. cbv zeta.
    rewrite (add_from_0_swap (evLoss d1) (evLoss d2)). reflexivity.
  - cbv zeta. split; [apply perm_skip, perm_skip, perm_swap|].
    split; vm_compute; reflexivity.
Qed.

(** X14: whatever the decisions hold, the score is never negative: it is
    NaN, or a zero, a finite number or an infinity of positive sign.  It
    is NaN as soon as a non-blunder decision has NaN for its frequency,
    and a frequency of 1e308 scores [+Infinity]. *)
Theorem calculateScore_is_never_negative (ds : list Decision) :
  (isNaN (calculateScore ds) = true \/ signed false (calculateScore ds))
  /\ ltb (calculateScore ds) (lit 0) = false
  /\ (forall d, d ∈ ds -> dd_isBlunder d = false ->
                isNaN (dd_gtoFrequency d) = true ->
                calculateScore ds = S754_nan)
  /\ calculateScore [decisionOf (lit 1e308) false] = S754_infinity false.
Proof.
  split; [apply calculateScore_signed|].
  split; [apply signed_not_below_0, calculateScore_signed|]. split.
  - intros d Hin Hb Hf.
    rewrite calculateScore_nonempty_on_doubles
      by (intros ->; apply elem_of_nil in Hin; exact Hin).
    unfold unrounded, average. rewrite (total_nan ds d Hin Hb Hf).
    reflexivity.
  - vm_compute. reflexivity.
Qed.

Lemma calculateScore_is_never_negative_witness :
  calculateScore [decisionOf (lit 0.9) false; decisionOf S754_nan false]
  = S754_nan.
Proof.
  destruct (calculateScore_is_never_negative
              [decisionOf (lit 0.9) false; decisionOf S754_nan false])
    as (_ & _ & H & _).
  apply (H (decisionOf S754_nan false)).
  - apply elem_of_cons. right. apply elem_of_cons. left. reflexivity.
  - reflexivity.
  - reflexivity.
Defined.

End OnDoubles.

(** *** Exact arithmetic and doubles on the trainer's own numbers *)

(** The analysis of a decision is the same on doubles as in exact
    arithmetic: the numbers are the doubles of the table's literals and
    the blunder flag is the same. *)
Lemma analyzeDecision_on_doubles state action amount amount' :
  let r := analyzeDecision state action amount in
  let r' := Double.analyzeDecision state action amount' in
  Double.dan_gtoFrequency r' = Double.lit (an_gtoFrequency r)
  /\ Double.dan_gtoEV r' = Double.lit (an_gtoEV r)
  /\ Double.dan_bestAction r' = an_bestAction r
  /\ Double.dan_bestActionFreq r' = Double.lit (an_bestActionFreq r)
  /\ Double.dan_isBlunder r' = an_isBlunder r.
Proof. destruct action; repeat split; vm_compute; reflexivity. Qed.

(** X24: the analysis of a decision is the same on doubles as in exact
    arithmetic, and on every hand played from the opening state the score
    computed on doubles from the recorded decisions is the score of
    exact arithmetic: the rounding of the sums, the quotient and the
    product never moves a score of the trainer's own hands across a
    half. *)
Theorem played_hand_scores_on_doubles (submitted : list (ActionType * option Q))
    (state : GameState) (action : ActionType) (amount : option Q) :
  (let r := analyzeDecision state action amount in
   let r' := Double.analyzeDecision state action (option_map Double.lit amount) in
   Double.dan_gtoFrequency r' = Double.lit (an_gtoFrequency r)
   /\ Double.dan_gtoEV r' = Double.lit (an_gtoEV r)
   /\ Double.dan_bestAction r' = an_bestAction r
   /\ Double.dan_bestActionFreq r' = Double.lit (an_bestActionFreq r)
   /\ Double.dan_isBlunder r' = an_isBlunder r)
  /\ Double.calculateScore
       (map Double.ofDecision (decisions (handAfter usePokerGame submitted)))
     = Double.lit (calculateScore (decisions (handAfter usePokerGame submitted))).
Proof.
  split; [apply analyzeDecision_on_doubles|].
  destruct (hand_shape submitted)
    as [(_ & ->) | [(n1 & rest & _ & ->) | [(a1 & n1 & _ & Hnf & ->)
       | (a1 & n1 & a2 & n2 & rest & _ & Hnf & ->)]]].
  - vm_compute. reflexivity.
  - vm_compute. reflexivity.
  - destruct a1; try contradiction; vm_compute; reflexivity.
  - destruct a1; try contradiction; destruct a2; vm_compute; reflexivity.
Qed.

(** X25: on each stored solution the best action and the blunders are
    the same on doubles as in exact arithmetic. *)
Theorem stored_solutions_on_doubles (s : GTOSolution) (a : GTOAction) :
  s ∈ gtoSolutions -> a ∈ sol_actions s ->
  Double.getBestAction (Double.ofSolution s)
  = option_map Double.ofAction (getBestAction s)
  /\ Double.isBlunder (Double.ofSolution s) (Double.ofAction a) = isBlunder s a.
Proof.
  intros Hs Ha. unfold gtoSolutions in Hs.
  repeat (apply elem_of_cons in Hs as [->|Hs];
          [cbn [sol_actions] in Ha;
           repeat (apply elem_of_cons in Ha as [->|Ha];
                   [split; vm_compute; reflexivity|]);
           apply elem_of_nil in Ha; contradiction|]).
  apply elem_of_nil in Hs. contradiction.
Qed.

Lemma stored_solutions_on_doubles_witness :
  Double.getBestAction (Double.ofSolution (default tiedSolution (head gtoSolutions)))
  = option_map Double.ofAction
      (getBestAction (default tiedSolution (head gtoSolutions)))
  /\ Double.isBlunder (Double.ofSolution (default tiedSolution (head gtoSolutions)))
       (Double.ofAction (offered check None 0.55 11.3))
     = isBlunder (default tiedSolution (head gtoSolutions))
         (offered check None 0.55 11.3).
Proof.
  apply (stored_solutions_on_doubles (default tiedSolution (head gtoSolutions))
           (offered check None 0.55 11.3)).
  - apply elem_of_cons. left. reflexivity.
  - apply elem_of_cons. left. reflexivity.
Defined.
